(** * The multiplication trainer: game state machine, scoring and highscores

    A shallow embedding of the logic functions of [streamlit_app.py]
    (everything above the view functions, the two button callbacks, [main]
    up to the display function it calls, and of the view functions the
    clock of the game screen and what the two forms do), together with the
    properties the specification states about them and further properties
    of the code.

    Modelling conventions.
    - A game state is the dictionary built by [initialize_game_state]; the
      code only ever reads and writes its seven literal keys, so it is a
      record here.  Dictionaries are Python objects: the model keeps them in
      a store and passes references, so that [game_state.copy()] and the
      assignments to the copy are what they are in the source.
    - Question dictionaries are created by [generate_question] and never
      assigned to afterwards; they are immutable record values.
    - [time.time()] is a parameter [now].  Timestamps are finite doubles,
      held as the rationals they stand for; they are subtracted as Python
      subtracts them, the difference rounded to the nearest double.
    - Every game state descends from [initialize_game_state] by [copy] and
      assignment, so all seven keys are always present.
    - [random.randint] and [random.random] read a stream of raw draws.
    - The leaderboard file holds no JSON or the list of entries that
      [json.dump] wrote.  A write puts its whole text in the file, or fails
      at [open] and leaves the file as it was, or breaks off after [open]
      and leaves a part of the text.  A file that is there can be read.
      Paths name files as the file system has it, several paths one file if
      so.
    - Calls to [logger] and to the widgets of [st] do not touch the game
      state and are left out. *)

From Stdlib Require Import ZArith QArith Lqa Ascii String List Lia Permutation Sorted.
From stdpp Require Import base list strings pretty gmap.
Import ListNotations.

Open Scope string_scope.
Open Scope list_scope.
Open Scope Z_scope.

(** ** Constants *)

Definition TOTAL_ROUNDS : Z := 20.
Definition SESSION_TIME_LIMIT_SECONDS : Z := 300.

Definition PHASE_1_RANGE : Z * Z := (1, 10).
Definition PHASE_2_RANGE : Z * Z := (11, 20).

Definition PHASE_1_END_ROUND : Z := 7.
Definition PHASE_2_END_ROUND : Z := 14.

Definition POINTS_PHASE_1 : Z := 1.
Definition POINTS_PHASE_2 : Z := 5.
Definition POINTS_PHASE_3 : Z := 10.

Definition MAX_HIGHSCORES : nat := 10.

(** ** Data *)

(** The dictionary [{'a': a, 'b': b, 'answer': answer}]. *)
Record Question : Type := mkQuestion {
  a : Z;
  b : Z;
  answer : Z
}.

(** The game-state dictionary.  [current_question] and [start_time] hold
    [None] in the welcome state. *)
Record GameState : Type := mkGameState {
  status : string;
  current_round : Z;
  score : Z;
  current_question : option Question;
  start_time : option Q;
  last_message : string;
  show_highscore_form : bool
}.

(** Assignment to one key, [d[key] = v]. *)
Definition set_status (v : string) (d : GameState) : GameState :=
  mkGameState v (current_round d) (score d) (current_question d)
              (start_time d) (last_message d) (show_highscore_form d).

Definition set_current_round (v : Z) (d : GameState) : GameState :=
  mkGameState (status d) v (score d) (current_question d)
              (start_time d) (last_message d) (show_highscore_form d).

Definition set_score (v : Z) (d : GameState) : GameState :=
  mkGameState (status d) (current_round d) v (current_question d)
              (start_time d) (last_message d) (show_highscore_form d).

Definition set_current_question (v : option Question) (d : GameState) : GameState :=
  mkGameState (status d) (current_round d) (score d) v
              (start_time d) (last_message d) (show_highscore_form d).

Definition set_start_time (v : option Q) (d : GameState) : GameState :=
  mkGameState (status d) (current_round d) (score d) (current_question d)
              v (last_message d) (show_highscore_form d).

Definition set_last_message (v : string) (d : GameState) : GameState :=
  mkGameState (status d) (current_round d) (score d) (current_question d)
              (start_time d) v (show_highscore_form d).

Definition set_show_highscore_form (v : bool) (d : GameState) : GameState :=
  mkGameState (status d) (current_round d) (score d) (current_question d)
              (start_time d) (last_message d) v.

(** ** The object store, the random source and the session slot *)

(** A reference to a game-state dictionary: its index in the store. *)
Definition loc : Type := nat.

(** The random source: an infinite stream of raw draws and a read position. *)
Record Rng : Type := mkRng {
  draws : nat -> N;
  cursor : nat
}.

(** [heap] holds every game-state dictionary created so far, [session] is
    [st.session_state[SESSION_STATE_KEY]] ([None] while the key is not set). *)
Record World : Type := mkWorld {
  heap : list GameState;
  rng : Rng;
  session : option loc
}.

Inductive error : Type :=
| TypeError      (* arithmetic on None *)
| KeyError       (* the session key is not set *)
| InvalidRef.    (* a reference to no object; Python never produces one *)

Inductive outcome (A : Type) : Type :=
| Ok (x : A) (w : World)
| Raise (e : error).

Arguments Ok {A} x w.
Arguments Raise {A} e.

(** Computations over the world that may raise. *)
Definition Py (A : Type) : Type := World -> outcome A.

Definition ret {A : Type} (x : A) : Py A := fun w => Ok x w.

Definition bind {A B : Type} (m : Py A) (k : A -> Py B) : Py B :=
  fun w => match m w with
           | Ok x w' => k x w'
           | Raise e => Raise e
           end.

Definition raise {A : Type} (e : error) : Py A := fun _ => Raise e.

Declare Scope py_scope.
Delimit Scope py_scope with py.
Notation "x <- m ;; k" := (bind m (fun x => k))
  (at level 100, m at next level, right associativity) : py_scope.
Notation "m ;; k" := (bind m (fun _ => k))
  (at level 100, right associativity) : py_scope.
Open Scope py_scope.

(** Store primitives. *)
Definition load (l : loc) : Py GameState :=
  fun w => match heap w !! l with
           | Some d => Ok d w
           | None => Raise InvalidRef
           end.

Definition store (l : loc) (d : GameState) : Py unit :=
  fun w => match heap w !! l with
           | Some _ => Ok tt (mkWorld (<[l := d]> (heap w)) (rng w) (session w))
           | None => Raise InvalidRef
           end.

Definition alloc (d : GameState) : Py loc :=
  fun w => Ok (length (heap w)) (mkWorld (heap w ++ [d]) (rng w) (session w)).

(** [d.copy()]: a new dictionary with the same items. *)
Definition dict_copy (l : loc) : Py loc :=
  d <- load l ;; alloc d.

(** [d[key]] for one of the seven keys. *)
Definition getitem {A : Type} (key : GameState -> A) (l : loc) : Py A :=
  d <- load l ;; ret (key d).

(** [d[key] = v], in place. *)
Definition setitem (l : loc) (assign : GameState -> GameState) : Py unit :=
  d <- load l ;; store l (assign d).

(** [st.session_state[SESSION_STATE_KEY]] read and written. *)
Definition get_session : Py loc :=
  fun w => match session w with
           | Some l => Ok l w
           | None => Raise KeyError
           end.

Definition set_session (l : loc) : Py unit :=
  fun w => Ok tt (mkWorld (heap w) (rng w) (Some l)).

(** Random draws. [randint lo hi] is an integer of [[lo, hi]],
    [random] a rational of [[0, 1)]. *)
Definition next_raw : Py N :=
  fun w => Ok (draws (rng w) (cursor (rng w)))
              (mkWorld (heap w) (mkRng (draws (rng w)) (S (cursor (rng w)))) (session w)).

Definition randint (lo hi : Z) : Py Z :=
  n <- next_raw ;; ret (lo + Z.of_N n mod (hi - lo + 1)).

Definition random : Py Q :=
  n <- next_raw ;; ret (Z.of_N n mod 2 ^ 53 # 2 ^ 53)%Q.

(** ** Logic functions *)

Definition default_state : GameState :=
  mkGameState "welcome" 0 0 None None "" false.

Definition initialize_game_state : Py loc :=
  alloc default_state.

Definition generate_question (current_round : Z) : Py Question :=
  if current_round <=? PHASE_1_END_ROUND then
    a <- randint (fst PHASE_1_RANGE) (snd PHASE_1_RANGE) ;;
    b <- randint (fst PHASE_1_RANGE) (snd PHASE_1_RANGE) ;;
    ret (mkQuestion a b (a * b))
  else if current_round <=? PHASE_2_END_ROUND then
    a <- randint (fst PHASE_1_RANGE) (snd PHASE_1_RANGE) ;;
    b <- randint (fst PHASE_2_RANGE) (snd PHASE_2_RANGE) ;;
    coin <- random ;;
    let '(a, b) := if negb (Qle_bool coin (1 # 2)) then (b, a) else (a, b) in
    ret (mkQuestion a b (a * b))
  else
    a <- randint (fst PHASE_2_RANGE) (snd PHASE_2_RANGE) ;;
    b <- randint (fst PHASE_2_RANGE) (snd PHASE_2_RANGE) ;;
    ret (mkQuestion a b (a * b)).

Definition get_points_for_round (current_round : Z) : Z :=
  if current_round <=? PHASE_1_END_ROUND then POINTS_PHASE_1
  else if current_round <=? PHASE_2_END_ROUND then POINTS_PHASE_2
  else POINTS_PHASE_3.

Definition get_phase_for_round (current_round : Z) : Z :=
  if current_round <=? PHASE_1_END_ROUND then 1
  else if current_round <=? PHASE_2_END_ROUND then 2
  else 3.

(** [if updated_state['score'] > 0: updated_state['show_highscore_form'] = True] *)
Definition offer_highscore_form (updated_state : loc) : Py unit :=
  sc <- getitem score updated_state ;;
  if sc >? 0 then setitem updated_state (set_show_highscore_form true)
  else ret tt.

(** The record always has the key [current_question], so of the guard
    ['current_question' not in updated_state or ... is None] the second test
    decides. *)
Definition check_answer (game_state : loc) (user_input : Z) : Py loc :=
  updated_state <- dict_copy game_state ;;
  question <- getitem current_question updated_state ;;
  match question with
  | None => ret updated_state
  | Some question =>
    let correct_answer := answer question in
    if user_input =? correct_answer then
      round <- getitem current_round updated_state ;;
      let points_to_add := get_points_for_round round in
      sc <- getitem score updated_state ;;
      setitem updated_state (set_score (sc + points_to_add)) ;;
      round <- getitem current_round updated_state ;;
      setitem updated_state (set_current_round (round + 1)) ;;
      setitem updated_state
        (set_last_message
           ("Great job! That was correct. +" +:+ pretty points_to_add +:+ " points.")) ;;
      round <- getitem current_round updated_state ;;
      (if round >? TOTAL_ROUNDS then
         setitem updated_state (set_status "game_over") ;;
         setitem updated_state
           (set_last_message "Wow! You finished all rounds! You are a math star!") ;;
         setitem updated_state (set_current_question None) ;;
         offer_highscore_form updated_state
       else
         round <- getitem current_round updated_state ;;
         next_question <- generate_question round ;;
         setitem updated_state (set_current_question (Some next_question))) ;;
      ret updated_state
    else
      setitem updated_state (set_status "game_over") ;;
      setitem updated_state
        (set_last_message
           ("Oh no! The correct answer was " +:+ pretty correct_answer +:+ ". Game over.")) ;;
      setitem updated_state (set_current_question None) ;;
      offer_highscore_form updated_state ;;
      ret updated_state
  end.

(** ** Clock arithmetic

    [time.time()] and the ['start_time'] of a game state are finite doubles;
    a timestamp here is the rational number such a double stands for.
    Python subtracts two doubles by rounding their exact difference to the
    nearest double, to the one with the even mantissa when two are equally
    near. *)

(** The integer nearest to [p / q], for [0 < q]; of two equally near, the
    even one. *)
Definition round_half_even (p q : Z) : Z :=
  let floor := p / q in
  match 2 * (p mod q) ?= q with
  | Lt => floor
  | Gt => floor + 1
  | Eq => if Z.even floor then floor else floor + 1
  end.

(** [n / d / 2 ^ e] as a fraction. *)
Definition scaled (n d e : Z) : Z * Z :=
  if 0 <=? e then (n, d * 2 ^ e) else (n * 2 ^ (- e), d).

(** The [k] with [2 ^ k <= n / d < 2 ^ (k + 1)], for positive [n] and [d]. *)
Definition binade (n d : Z) : Z :=
  let k := Z.log2 n - Z.log2 d in
  let (p, q) := scaled n d k in
  if q <=? p then k else k - 1.

(** [m * 2 ^ e]. *)
Definition dyadic (m e : Z) : Q :=
  if 0 <=? e then inject_Z (m * 2 ^ e) else (m # Z.to_pos (2 ^ (- e)))%Q.

(** The double nearest to a positive [n / d]: a mantissa of 53 bits, or a
    multiple of [2 ^ -1074] where doubles are subnormal. *)
Definition round_magnitude (n d : Z) : Q :=
  let e := Z.max (binade n d - 52) (-1074) in
  let (p, q) := scaled n d e in
  dyadic (round_half_even p q) e.

Definition round_double (x : Q) : Q :=
  match Qnum x with
  | 0 => 0%Q
  | Z.pos n => round_magnitude (Z.pos n) (Z.pos (Qden x))
  | Z.neg n => (- round_magnitude (Z.pos n) (Z.pos (Qden x)))%Q
  end.

(** [x - y] on doubles.  A difference beyond the largest double, which is
    infinite in Python, is a rational beyond it here; the two compare alike
    with the time limit. *)
Definition float_sub (x y : Q) : Q := round_double (x - y).

(** [x > y] on a double and a whole number, which Python compares exactly. *)
Definition Qgtb (x y : Q) : bool := negb (Qle_bool x y).

Definition check_timer (game_state : loc) (now : Q) : Py loc :=
  st <- getitem status game_state ;;
  if negb (String.eqb st "playing") then ret game_state
  else
    started <- getitem start_time game_state ;;
    match started with
    | None => raise TypeError
    | Some started =>
      let elapsed_time := float_sub now started in
      if Qgtb elapsed_time (inject_Z SESSION_TIME_LIMIT_SECONDS) then
        updated_state <- dict_copy game_state ;;
        setitem updated_state (set_status "game_over") ;;
        setitem updated_state (set_last_message "Time is up! Game over.") ;;
        setitem updated_state (set_current_question None) ;;
        offer_highscore_form updated_state ;;
        ret updated_state
      else ret game_state
    end.

(** ** Highscores *)

(** One leaderboard entry as read from the JSON file.  [entry_score] is
    [None] for an object without a ['score'] key, which
    [x.get('score', 0)] reads as [0]. *)
Record HighscoreEntry : Type := mkEntry {
  entry_name : string;
  entry_score : option Z;
  entry_date : string
}.

(** The sort key [lambda x: x.get('score', 0)]. *)
Definition score_key (x : HighscoreEntry) : Z :=
  match entry_score x with
  | Some s => s
  | None => 0
  end.

(** [list.sort(key=..., reverse=True)]: descending by key, and stable, so
    that entries with equal keys keep their order.  [sort_desc] inserts
    the elements from the last to the first, each in front of the first
    element whose key is not greater than its own. *)
Fixpoint insert_desc (x : HighscoreEntry) (l : list HighscoreEntry) : list HighscoreEntry :=
  match l with
  | [] => [x]
  | y :: l' =>
    if score_key x <? score_key y then y :: insert_desc x l'
    else x :: y :: l'
  end.

Definition sort_desc (l : list HighscoreEntry) : list HighscoreEntry :=
  fold_right insert_desc [] l.

(** [entry_time] is the formatted local time of the call. *)
Definition add_highscore (entry_time : string) (name : string) (score : Z)
    (current_scores : list HighscoreEntry) : list HighscoreEntry :=
  let new_entry := mkEntry name (Some score) entry_time in
  let updated_scores := current_scores ++ [new_entry] in
  let updated_scores := sort_desc updated_scores in
  firstn MAX_HIGHSCORES updated_scores.

(** ** Callbacks and the controller *)

Definition start_game_callback (now : Q) : Py unit :=
  new_state <- initialize_game_state ;;
  setitem new_state (set_status "playing") ;;
  setitem new_state (set_start_time (Some now)) ;;
  setitem new_state (set_current_round 1) ;;
  first_question <- generate_question 1 ;;
  setitem new_state (set_current_question (Some first_question)) ;;
  setitem new_state (set_last_message "Here is your first question. Good luck!") ;;
  set_session new_state.

Definition restart_game_callback : Py unit :=
  new_state <- initialize_game_state ;;
  set_session new_state.

(** The part of [display_game_screen] that handles a submitted answer. *)
Definition submit_answer (user_answer : Z) : Py unit :=
  game_data <- get_session ;;
  updated_state <- check_answer game_data user_answer ;;
  set_session updated_state.

(** The part of [display_game_over_screen] that closes the highscore form
    once the score is saved. *)
Definition close_highscore_form : Py unit :=
  game_data <- get_session ;;
  updated_state <- dict_copy game_data ;;
  setitem updated_state (set_show_highscore_form false) ;;
  set_session updated_state.

(** The first lines of [main]: create the state on the first run, then
    check the timer while playing. *)
Definition ensure_session : Py unit :=
  fun w => match session w with
           | None => (new_state <- initialize_game_state ;; set_session new_state) w
           | Some _ => Ok tt w
           end.

Definition main_controller (now : Q) : Py loc :=
  ensure_session ;;
  game_state <- get_session ;;
  st <- getitem status game_state ;;
  if String.eqb st "playing" then
    game_state <- check_timer game_state now ;;
    set_session game_state ;;
    ret game_state
  else ret game_state.

(** ** Sessions *)

(** What the player, or the passing of time, can make the program do. *)
Inductive action : Type :=
| Start (now : Q)
| Submit (user_answer : Z)
| Tick (now : Q)
| Restart
| CloseForm.

Definition perform (act : action) : Py unit :=
  match act with
  | Start now => start_game_callback now
  | Submit user_answer => submit_answer user_answer
  | Tick now => main_controller now ;; ret tt
  | Restart => restart_game_callback
  | CloseForm => close_highscore_form
  end.

(** The actions that read the session key without setting it first. *)
Definition needs_session (act : action) : bool :=
  match act with
  | Submit _ | CloseForm => true
  | Start _ | Tick _ | Restart => false
  end.

(** Before the first run there is no object and no session key. *)
Definition initial_world (g : Rng) : World := mkWorld [] g None.

(** The worlds the program can be in.  Actions are taken in any order; the
    screens offer fewer sequences than that. *)
Inductive reachable : World -> Prop :=
| reachable_initial (g : Rng) : reachable (initial_world g)
| reachable_step (w w' : World) (act : action) :
    reachable w -> perform act w = Ok tt w' -> reachable w'.

(** A whole list of actions, one after the other. *)
Fixpoint perform_all (acts : list action) : Py unit :=
  match acts with
  | [] => ret tt
  | act :: rest => perform act ;; perform_all rest
  end.

(** The game state the session currently holds. *)
Definition session_state (w : World) : option GameState :=
  match session w with
  | Some l => heap w !! l
  | None => None
  end.

(** [n] times: read the current question and submit its answer. *)
Fixpoint answer_correctly (n : nat) : Py unit :=
  match n with
  | O => ret tt
  | S n' =>
    game_data <- get_session ;;
    question <- getitem current_question game_data ;;
    match question with
    | None => ret tt
    | Some question => submit_answer (answer question) ;; answer_correctly n'
    end
  end.

(** The invariant of the data model: a question is present exactly while
    playing. *)
Definition question_iff_playing (d : GameState) : Prop :=
  current_question d <> None <-> status d = "playing".

(** ** The leaderboard file *)

Definition HIGHSCORE_FILE : string := "highscores.json".

(** What a file holds: text that is no JSON, or the JSON list of entries
    that [json.dump] wrote.  [json.load] gives back the list written; any
    other JSON content is outside this model. *)
Inductive FileContent : Type :=
| NotJson
| JsonEntries (scores : list HighscoreEntry).

(** How a write goes.  [open(filepath, 'w')] fails, and the file stays as
    it was; or it succeeds, which empties the file, and then the whole text
    of [json.dump] reaches the file, or only a part of it.
    [save_highscores] catches and logs the exceptions of the two failures. *)
Inductive Writing : Type :=
| WritesAll
| OpenFails
| WritesPart.

(** The file system: the file each path names (two paths may name one
    file), what the files hold, and how a write goes. *)
Record Disk : Type := mkDisk {
  file_of : string -> nat;
  files : gmap nat FileContent;
  writing : Writing
}.

(** What the file that [filepath] names holds. *)
Definition content (disk : Disk) (filepath : string) : option FileContent :=
  files disk !! file_of disk filepath.

(** A write puts its whole text in the file. *)
Definition writable (disk : Disk) : bool :=
  match writing disk with
  | WritesAll => true
  | OpenFails | WritesPart => false
  end.

Definition load_highscores (filepath : string) (disk : Disk) : list HighscoreEntry :=
  match content disk filepath with
  | Some (JsonEntries scores) => sort_desc scores
  | None => []              (* FileNotFoundError *)
  | Some NotJson => []      (* json.JSONDecodeError *)
  end.

(** The file that [filepath] names, holding [text]. *)
Definition write_file (filepath : string) (text : FileContent) (disk : Disk) : Disk :=
  mkDisk (file_of disk) (<[file_of disk filepath := text]> (files disk)) (writing disk).

Definition save_highscores (filepath : string) (scores : list HighscoreEntry)
    (disk : Disk) : Disk :=
  match writing disk with
  | WritesAll => write_file filepath (JsonEntries scores) disk
  | OpenFails => disk                             (* IOError, logged *)
  | WritesPart => write_file filepath NotJson disk  (* IOError, logged; a part
                                                       of the text is no JSON *)
  end.

(** ** Screens *)

(** [str.isspace] on one character with a code below 256. *)
Definition is_space (c : ascii) : bool :=
  let n := nat_of_ascii c in
  ((9 <=? n) && (n <=? 13) || (28 <=? n) && (n <=? 32) || (n =? 133) || (n =? 160))%nat.

Fixpoint lstrip (s : string) : string :=
  match s with
  | EmptyString => EmptyString
  | String c s' => if is_space c then lstrip s' else s
  end.

Fixpoint rstrip (s : string) : string :=
  match s with
  | EmptyString => EmptyString
  | String c s' =>
    match rstrip s' with
    | EmptyString => if is_space c then EmptyString else String c EmptyString
    | rest => String c rest
    end
  end.

(** [s.strip()], for text of characters with codes below 256. *)
Definition strip (s : string) : string := rstrip (lstrip s).

(** [int(x)] on a finite double: the integer part, towards zero. *)
Definition py_int (x : Q) : Z := Z.quot (Qnum x) (Z.pos (Qden x)).

(** [x / y] on whole numbers: the double nearest to the quotient. *)
Definition int_truediv (x y : Z) : Q := round_double (inject_Z x / inject_Z y).

(** The first lines of [display_game_screen], for a session started at
    [started] and a clock that reads [now]. *)
Definition time_left (started now : Q) : Z :=
  let elapsed_time := float_sub now started in
  py_int (float_sub (inject_Z SESSION_TIME_LIMIT_SECONDS) elapsed_time).

Definition percent_remaining (started now : Q) : Q :=
  let ratio := int_truediv (time_left started now) SESSION_TIME_LIMIT_SECONDS in
  if Qgtb ratio 0 then ratio else 0%Q.      (* max(0.0, ratio) *)

(** The view routing of [main]: the display function it calls and the
    dictionary it passes. *)
Inductive view : Type :=
| WelcomeScreen
| GameScreen (game_data : loc)
| GameOverScreen (game_data : loc)
| NoScreen.

(** [main] up to the call of a display function: the controller at time
    [now], then the routing by status. *)
Definition main (now : Q) : Py view :=
  game_state <- main_controller now ;;
  st <- getitem status game_state ;;
  if String.eqb st "welcome" then ret WelcomeScreen
  else if String.eqb st "playing" then ret (GameScreen game_state)
  else if String.eqb st "game_over" then ret (GameOverScreen game_state)
  else ret NoScreen.

(** What the highscore form answers. *)
Inductive notice : Type :=
| PleaseEnterName
| ScoreSaved (player_name : string).

(** The highscore form of [display_game_over_screen], submitted with
    [player_name] at local time [entry_time]: shown only while
    [show_highscore_form] is set. *)
Definition save_highscore_form (entry_time player_name : string) (disk : Disk)
    : Py (Disk * option notice) :=
  game_data <- get_session ;;
  shown <- getitem show_highscore_form game_data ;;
  if shown then
    if String.eqb player_name "" then ret (disk, Some PleaseEnterName)
    else
      let current_scores := load_highscores HIGHSCORE_FILE disk in
      final_score <- getitem score game_data ;;
      let new_scores :=
        add_highscore entry_time (strip player_name) final_score current_scores in
      let disk := save_highscores HIGHSCORE_FILE new_scores disk in
      updated_state <- dict_copy game_data ;;
      setitem updated_state (set_show_highscore_form false) ;;
      set_session updated_state ;;
      ret (disk, Some (ScoreSaved player_name))
  else ret (disk, None).

(** ** The program and its leaderboard file *)

(** The actions of a session, the highscore form, and the file system
    changing how it takes a write. *)
Inductive app_action : Type :=
| Act (act : action)
| SaveScore (entry_time player_name : string)
| SetWriting (how : Writing).

Definition app_perform (act : app_action) (disk : Disk) : Py Disk :=
  match act with
  | Act act => perform act ;; ret disk
  | SaveScore entry_time player_name =>
    result <- save_highscore_form entry_time player_name disk ;; ret (fst result)
  | SetWriting how => ret (mkDisk (file_of disk) (files disk) how)
  end.

(** The program starts without any file. *)
Definition initial_disk (names : string -> nat) (how : Writing) : Disk :=
  mkDisk names ∅ how.

Inductive app_reachable : World -> Disk -> Prop :=
| app_reachable_initial (g : Rng) (names : string -> nat) (how : Writing) :
    app_reachable (initial_world g) (initial_disk names how)
| app_reachable_step (w w' : World) (disk disk' : Disk) (act : app_action) :
    app_reachable w disk -> app_perform act disk w = Ok disk' w' ->
    app_reachable w' disk'.

(** ** Vocabulary of the statements *)

(** The state after [offer_highscore_form]. *)
Definition offered (d : GameState) : GameState :=
  if score d >? 0 then set_show_highscore_form true d else d.

Definition between (lo hi x : Z) : Prop := lo <= x <= hi.

(** The operand ranges of the three phases. *)
Definition operands_match_phase (round : Z) (q : Question) : Prop :=
  (round <= 7 -> between 1 10 (a q) /\ between 1 10 (b q)) /\
  (8 <= round <= 14 ->
     (between 1 10 (a q) /\ between 11 20 (b q)) \/
     (between 11 20 (a q) /\ between 1 10 (b q))) /\
  (15 <= round -> between 11 20 (a q) /\ between 11 20 (b q)).

(** The world after [n] more draws. *)
Definition skip (n : nat) (w : World) : World :=
  mkWorld (heap w) (mkRng (draws (rng w)) (n + cursor (rng w))) (session w).

(** What [check_answer] makes of a game state: the four ways through it.
    The next question is whatever the random source gives, within the
    ranges of its round. *)
Inductive answered (d : GameState) (user_input : Z) : GameState -> Prop :=
| answered_without_question :
    current_question d = None ->
    answered d user_input d
| answered_wrong (q : Question) :
    current_question d = Some q ->
    user_input <> answer q ->
    answered d user_input
      (mkGameState "game_over" (current_round d) (score d) None (start_time d)
         ("Oh no! The correct answer was " +:+ pretty (answer q) +:+ ". Game over.")
         ((score d >? 0) || show_highscore_form d))
| answered_last (q : Question) :
    current_question d = Some q ->
    user_input = answer q ->
    TOTAL_ROUNDS < current_round d + 1 ->
    answered d user_input
      (mkGameState "game_over" (current_round d + 1)
         (score d + get_points_for_round (current_round d)) None (start_time d)
         "Wow! You finished all rounds! You are a math star!"
         ((score d + get_points_for_round (current_round d) >? 0) || show_highscore_form d))
| answered_next (q q' : Question) :
    current_question d = Some q ->
    user_input = answer q ->
    current_round d + 1 <= TOTAL_ROUNDS ->
    answer q' = a q' * b q' ->
    operands_match_phase (current_round d + 1) q' ->
    answered d user_input
      (mkGameState (status d) (current_round d + 1)
         (score d + get_points_for_round (current_round d)) (Some q') (start_time d)
         ("Great job! That was correct. +"
            +:+ pretty (get_points_for_round (current_round d)) +:+ " points.")
         (show_highscore_form d)).

(** The state [start_game_callback] builds around its first question. *)
Definition first_state (now : Q) (q : Question) : GameState :=
  mkGameState "playing" 1 0 (Some q) (Some now)
    "Here is your first question. Good luck!" false.

(** The state a time-out leaves. *)
Definition timed_out (d : GameState) : GameState :=
  mkGameState "game_over" (current_round d) (score d) None (start_time d)
    "Time is up! Game over." ((score d >? 0) || show_highscore_form d).

(** What every game state of a reachable world satisfies: the invariant of
    the data model and, while playing, a closed highscore form and a start
    time. *)
Definition state_ok (d : GameState) : Prop :=
  question_iff_playing d
  /\ (status d = "playing" -> show_highscore_form d = false)
  /\ (status d = "playing" -> start_time d <> None).

(** Every object satisfies [state_ok] and the session key, once set, refers
    to an object. *)
Definition world_ok (w : World) : Prop :=
  Forall state_ok (heap w) /\ (forall l, session w = Some l -> is_Some (heap w !! l)).

(** The points of [n] rounds from round [r] on. *)
Fixpoint points_of_rounds (r : Z) (n : nat) : Z :=
  match n with
  | O => 0
  | S n' => get_points_for_round r + points_of_rounds (r + 1) n'
  end.

(** [x] may stand before [y] on the leaderboard. *)
Definition ranks_before (x y : HighscoreEntry) : Prop := score_key y <= score_key x.

(** The entries of [l] whose sort key is [k], in the order of [l]. *)
Definition with_key (k : Z) (l : list HighscoreEntry) : list HighscoreEntry :=
  List.filter (fun x => score_key x =? k) l.

(** The entries of [l] that score at least [s]. *)
Definition at_least (s : Z) (l : list HighscoreEntry) : list HighscoreEntry :=
  List.filter (fun x => s <=? score_key x) l.

(** ** Sample inputs *)

Definition sample_rng : Rng := mkRng (fun n => N.of_nat (7 * n + 3)) 0.

Definition sample_playing : GameState :=
  mkGameState "playing" 3 2 (Some (mkQuestion 6 7 42)) (Some (1000 # 1)%Q) "" false.

Definition sample_world : World := mkWorld [sample_playing] sample_rng (Some 0%nat).

(** A playing state whose highscore form is already open although nothing
    has been scored.  No run of the program produces it. *)
Definition open_form_state : GameState :=
  mkGameState "playing" 1 0 (Some (mkQuestion 6 7 42)) (Some (1000 # 1)%Q) "" true.

Definition open_form_world : World := mkWorld [open_form_state] sample_rng (Some 0%nat).

(** The doubles nearest to 0.1 and to 300.1. *)
Definition double_0_1 : Q := (3602879701896397 # 36028797018963968)%Q.
Definition double_300_1 : Q := (2639707515964621 # 8796093022208)%Q.

(** A session started when the clock read 0.1. *)
Definition just_started : GameState :=
  mkGameState "playing" 1 0 (Some (mkQuestion 6 7 42)) (Some double_0_1)
    "Here is your first question. Good luck!" false.

Definition just_started_world : World := mkWorld [just_started] sample_rng (Some 0%nat).

(** A leaderboard with room left. *)
Definition short_board : list HighscoreEntry :=
  [mkEntry "Ada" (Some 102) "2024-01-01 10:00"].

(** A leaderboard of ten entries that score 102. *)
Definition full_board : list HighscoreEntry :=
  repeat (mkEntry "Ada" (Some 102) "2024-01-01 10:00") 10.

(** ** Vocabulary of the further properties *)

(** The score after completing the rounds before [round]. *)
Definition score_at_round (round : Z) : Z :=
  points_of_rounds 1 (Z.to_nat (round - 1)).

Definition completion_message : string :=
  "Wow! You finished all rounds! You are a math star!".

(** The three shapes of a game state in a running program. *)
Definition shape_welcome (d : GameState) : Prop := d = default_state.

Definition shape_playing (d : GameState) : Prop :=
  status d = "playing"
  /\ 1 <= current_round d <= 20
  /\ score d = score_at_round (current_round d)
  /\ (exists q, current_question d = Some q
                /\ answer q = a q * b q
                /\ operands_match_phase (current_round d) q)
  /\ start_time d <> None
  /\ last_message d <> completion_message
  /\ show_highscore_form d = false.

Definition shape_game_over (d : GameState) : Prop :=
  status d = "game_over"
  /\ 1 <= current_round d <= 21
  /\ score d = score_at_round (current_round d)
  /\ current_question d = None
  /\ start_time d <> None
  /\ (last_message d = completion_message <-> current_round d = 21)
  /\ (show_highscore_form d = true -> 0 < score d).

Definition well_shaped (d : GameState) : Prop :=
  shape_welcome d \/ shape_playing d \/ shape_game_over d.

(** The world the actions [acts] lead to from [w]. *)
Definition world_after (acts : list action) (w : World) : World :=
  match perform_all acts w with
  | Ok _ w' => w'
  | Raise _ => w
  end.

(** One correct answer into a session. *)
Definition playing_world : World :=
  world_after [Tick 0%Q; Start 0%Q; Submit 4] (initial_world sample_rng).

(** A session lost in its second round, with one point. *)
Definition lost_world : World :=
  world_after [Tick 0%Q; Start 0%Q; Submit 4; Submit 0] (initial_world sample_rng).

(** A session won with all 20 answers. *)
Definition won_world : World :=
  world_after
    (Tick 0%Q :: Start 0%Q
       :: map Submit [4; 40; 18; 18; 70; 4; 40; 38; 60; 44;
                      60; 78; 98; 120; 304; 260; 238; 198; 180; 304])
    (initial_world sample_rng).

(** The three things [main_controller] can do. *)
Inductive controlled (now : Q) (w : World) : loc -> World -> Prop :=
| controlled_first_run :
    session w = None ->
    controlled now w (length (heap w))
      (mkWorld (heap w ++ [default_state]) (rng w) (Some (length (heap w))))
| controlled_kept (l : loc) (d : GameState) :
    session w = Some l -> heap w !! l = Some d ->
    (status d = "playing" ->
     exists started, start_time d = Some started
                     /\ (float_sub now started <= inject_Z SESSION_TIME_LIMIT_SECONDS)%Q) ->
    controlled now w l (mkWorld (heap w) (rng w) (Some l))
| controlled_timed_out (l : loc) (d : GameState) (started : Q) :
    session w = Some l -> heap w !! l = Some d ->
    status d = "playing" -> start_time d = Some started ->
    (inject_Z SESSION_TIME_LIMIT_SECONDS < float_sub now started)%Q ->
    controlled now w (length (heap w))
      (mkWorld (heap w ++ [timed_out d]) (rng w) (Some (length (heap w)))).

(** The entries of [l] that score less than [s]. *)
Definition below (s : Z) (l : list HighscoreEntry) : list HighscoreEntry :=
  List.filter (fun x => score_key x <? s) l.

(** A name of white space only. *)
Fixpoint all_space (s : string) : bool :=
  match s with
  | EmptyString => true
  | String c s' => is_space c && all_space s'
  end.

(** The state [lost_world] holds in its session. *)
Definition lost_state : GameState :=
  mkGameState "game_over" 2 1 None (Some 0%Q)
    "Oh no! The correct answer was 40. Game over." true.

(** The state [playing_world] holds in its session. *)
Definition playing_state : GameState :=
  mkGameState "playing" 2 1 (Some (mkQuestion 8 5 40)) (Some 0%Q)
    "Great job! That was correct. +1 points." false.

(** The state [won_world] holds in its session. *)
Definition won_state : GameState :=
  mkGameState "game_over" 21 102 None (Some 0%Q)
    "Wow! You finished all rounds! You are a math star!" true.

(** [playing_world] after one more correct answer. *)
Definition answered_world : World :=
  world_after [Tick 0%Q; Start 0%Q; Submit 4; Submit 40] (initial_world sample_rng).

(** An entry the program writes: a score a session can end with, and a
    name without white space at its ends. *)
Definition entry_ok (e : HighscoreEntry) : Prop :=
  exists s, entry_score e = Some s /\ 1 <= s <= 102
            /\ strip (entry_name e) = entry_name e.

Definition board_ok (board : list HighscoreEntry) : Prop :=
  (length board <= 10)%nat
  /\ StronglySorted ranks_before board
  /\ Forall entry_ok board.

(** No file but the leaderboard, which is missing, cut short by a write
    that broke off, or a list of entries the program writes. *)
Definition disk_ok (disk : Disk) : Prop :=
  (forall file, file <> file_of disk HIGHSCORE_FILE -> files disk !! file = None)
  /\ (content disk HIGHSCORE_FILE = None
      \/ content disk HIGHSCORE_FILE = Some NotJson
      \/ exists board, content disk HIGHSCORE_FILE = Some (JsonEntries board)
                       /\ board_ok board).

(** A directory in which paths of different lengths name different files. *)
Definition sample_names (filepath : string) : nat := String.length filepath.

(** Empty disks: one that takes every write, one whose files cannot be
    opened for writing, one on which every write breaks off. *)
Definition fresh_disk : Disk := initial_disk sample_names WritesAll.
Definition locked_disk : Disk := initial_disk sample_names OpenFails.
Definition full_disk : Disk := initial_disk sample_names WritesPart.

(** The world and the disk after the one point of [lost_world] is saved. *)
Definition saved_app : World * Disk :=
  match app_perform (SaveScore "2024-01-02 09:30" "  Bob ") fresh_disk lost_world with
  | Ok disk w => (w, disk)
  | Raise _ => (lost_world, fresh_disk)
  end.

(** * Proofs *)

(** ** Running the store primitives *)

Section Runs.
Context {A B : Type}.

Lemma bind_run (m : Py A) (k : A -> Py B) (w w' : World) (x : A) :
  m w = Ok x w' -> bind m k w = k x w'.
Proof. intros H. unfold bind. now rewrite H. Qed.

Lemma bind_assoc {C : Type} (m : Py A) (k : A -> Py B) (k' : B -> Py C) (w : World) :
  bind (bind m k) k' w = bind m (fun x => bind (k x) k') w.
Proof. unfold bind. now destruct (m w). Qed.

End Runs.

Lemma lookup_last (h : list GameState) (d : GameState) : (h ++ [d]) !! length h = Some d.
Proof. rewrite lookup_app_r by lia. now rewrite Nat.sub_diag. Qed.

Lemma insert_last (h : list GameState) (d d' : GameState) :
  <[length h := d']> (h ++ [d]) = h ++ [d'].
Proof. rewrite insert_app_r_alt by lia. now rewrite Nat.sub_diag. Qed.

Lemma getitem_last {A : Type} (key : GameState -> A) h d g se :
  getitem key (length h) (mkWorld (h ++ [d]) g se) = Ok (key d) (mkWorld (h ++ [d]) g se).
Proof. unfold getitem, bind, load, ret. cbn [heap]. now rewrite lookup_last. Qed.

Lemma setitem_last assign h d g se :
  setitem (length h) assign (mkWorld (h ++ [d]) g se) = Ok tt (mkWorld (h ++ [assign d]) g se).
Proof.
  unfold setitem, bind, load, store. cbn [heap rng session].
  rewrite lookup_last. cbn [heap rng session]. rewrite lookup_last.
  now rewrite insert_last.
Qed.

Lemma dict_copy_run l w d :
  heap w !! l = Some d ->
  dict_copy l w = Ok (length (heap w)) (mkWorld (heap w ++ [d]) (rng w) (session w)).
Proof. intros H. unfold dict_copy, bind, load, alloc. now rewrite H. Qed.

Lemma offer_highscore_form_last h d g se :
  offer_highscore_form (length h) (mkWorld (h ++ [d]) g se)
  = Ok tt (mkWorld (h ++ [offered d]) g se).
Proof.
  unfold offer_highscore_form, offered.
  rewrite (bind_run _ _ _ _ _ (getitem_last score h d g se)).
  destruct (score d >? 0); [apply setitem_last | reflexivity].
Qed.

Lemma randint_run lo hi w :
  exists x, randint lo hi w = Ok x (skip 1 w) /\ (lo <= hi -> between lo hi x).
Proof.
  eexists. split; [reflexivity |].
  intros Hle. unfold between.
  pose proof (Z.mod_pos_bound (Z.of_N (draws (rng w) (cursor (rng w)))) (hi - lo + 1)).
  lia.
Qed.

Lemma random_run w : exists x, random w = Ok x (skip 1 w).
Proof. eexists. reflexivity. Qed.

Lemma generate_question_run round w :
  exists q n, generate_question round w = Ok q (skip n w)
    /\ answer q = a q * b q /\ operands_match_phase round q.
Proof.
  unfold generate_question, operands_match_phase,
    PHASE_1_END_ROUND, PHASE_2_END_ROUND, PHASE_1_RANGE, PHASE_2_RANGE.
  cbn [fst snd].
  destruct (Z.leb_spec round 7) as [H7 | H7]; [| destruct (Z.leb_spec round 14) as [H14 | H14]].
  - destruct (randint_run 1 10 w) as (x & Hx & Rx).
    destruct (randint_run 1 10 (skip 1 w)) as (y & Hy & Ry).
    exists (mkQuestion x y (x * y)), 2%nat.
    rewrite (bind_run _ _ _ _ _ Hx), (bind_run _ _ _ _ _ Hy).
    cbn. repeat split; try lia; try (apply Rx; lia); try (apply Ry; lia).
  - destruct (randint_run 1 10 w) as (x & Hx & Rx).
    destruct (randint_run 11 20 (skip 1 w)) as (y & Hy & Ry).
    destruct (random_run (skip 1 (skip 1 w))) as (c & Hc).
    rewrite (bind_run _ _ _ _ _ Hx), (bind_run _ _ _ _ _ Hy), (bind_run _ _ _ _ _ Hc).
    specialize (Rx ltac:(lia)). specialize (Ry ltac:(lia)).
    destruct (negb (Qle_bool c (1 # 2))).
    + exists (mkQuestion y x (y * x)), 3%nat. cbn. repeat split; try lia. right. tauto.
    + exists (mkQuestion x y (x * y)), 3%nat. cbn. repeat split; try lia. left. tauto.
  - destruct (randint_run 11 20 w) as (x & Hx & Rx).
    destruct (randint_run 11 20 (skip 1 w)) as (y & Hy & Ry).
    exists (mkQuestion x y (x * y)), 2%nat.
    rewrite (bind_run _ _ _ _ _ Hx), (bind_run _ _ _ _ _ Hy).
    cbn. repeat split; try lia; try (apply Rx; lia); try (apply Ry; lia).
Qed.

Lemma generate_question_frame round h g se :
  exists q g', generate_question round (mkWorld h g se) = Ok q (mkWorld h g' se)
    /\ answer q = a q * b q /\ operands_match_phase round q.
Proof.
  destruct (generate_question_run round (mkWorld h g se)) as (q & n & Hq & Hrest).
  exists q. eexists. split; [exact Hq | exact Hrest].
Qed.

Ltac py_step :=
  rewrite ?bind_assoc;
  erewrite bind_run
    by first [ apply getitem_last | apply setitem_last
             | apply offer_highscore_form_last | eassumption ];
  cbv beta.

Lemma check_answer_run l user_input w d :
  heap w !! l = Some d ->
  exists d' g',
    check_answer l user_input w
      = Ok (length (heap w)) (mkWorld (heap w ++ [d']) g' (session w))
    /\ answered d user_input d'.
Proof.
  destruct w as [h g se]. cbn [heap rng session]. intros Hl.
  unfold check_answer.
  rewrite (bind_run _ _ _ _ _ (dict_copy_run l (mkWorld h g se) d Hl)). cbn [heap rng session].
  py_step.
  destruct (current_question d) as [q |] eqn:Hq.
  2:{ exists d, g. split; [reflexivity | now constructor]. }
  destruct (Z.eqb_spec user_input (answer q)) as [Heq | Hne].
  - do 7 py_step.
    cbn [current_round set_current_round set_score set_last_message].
    destruct (Z.gtb_spec (current_round d + 1) TOTAL_ROUNDS) as [Hlast | Hmore].
    + repeat py_step.
      eexists. exists g. split; [reflexivity |].
      unfold offered. cbn.
      destruct (score d + get_points_for_round (current_round d) >? 0) eqn:Hsc; cbn;
        [ pose proof (answered_last d user_input q Hq Heq Hlast) as Ha
        | pose proof (answered_last d user_input q Hq Heq Hlast) as Ha ];
        rewrite Hsc in Ha; exact Ha.
    + py_step. cbn [current_round].
      destruct (generate_question_frame (current_round d + 1) (h ++ [set_last_message
           ("Great job! That was correct. +" +:+ pretty (get_points_for_round (current_round d)) +:+ " points.")
           (set_current_round (current_round d + 1)
              (set_score (score d + get_points_for_round (current_round d)) d))]) g se)
        as (q' & g' & Hgen & Hans & Hops).
      repeat py_step.
      eexists. exists g'. split; [reflexivity |].
      exact (answered_next d user_input q q' Hq Heq Hmore Hans Hops).
  - repeat py_step.
    eexists. exists g. split; [reflexivity |].
    unfold offered. cbn.
    pose proof (answered_wrong d user_input q Hq Hne) as Ha.
    destruct (score d >? 0); exact Ha.
Qed.

(** Every integer of the range is a possible draw. *)
Lemma randint_reaches (lo hi x : Z) (h : list GameState) (c : nat) (se : option loc) :
  lo <= x <= hi ->
  exists w', randint lo hi (mkWorld h (mkRng (fun _ => Z.to_N (x - lo)) c) se) = Ok x w'.
Proof.
  intros Hx. eexists. unfold randint, bind, next_raw, ret. cbn [rng draws cursor].
  rewrite Z2N.id by lia. rewrite Z.mod_small by lia. f_equal. lia.
Qed.

(** ** Rounding to doubles *)

Lemma round_half_even_at_least (p q k : Z) :
  0 < q -> k * q <= p -> k <= round_half_even p q.
Proof.
  intros Hq Hk. unfold round_half_even. cbv zeta.
  assert (Hfloor : k <= p / q) by (apply Z.div_le_lower_bound; lia).
  destruct (2 * (p mod q) ?= q); [destruct (Z.even (p / q)) |..]; lia.
Qed.

Lemma round_half_even_at_most (p q k : Z) :
  0 < q -> p <= k * q -> round_half_even p q <= k.
Proof.
  intros Hq Hk. unfold round_half_even. cbv zeta.
  pose proof (Z.div_mod p q ltac:(lia)) as Hdiv.
  pose proof (Z.mod_pos_bound p q Hq) as Hmod.
  assert (Hfloor : p / q <= k) by (apply Z.div_le_upper_bound; lia).
  destruct (Z.eq_dec (p / q) k) as [Heq | Hne].
  - assert (Hzero : p mod q = 0) by nia.
    rewrite Hzero, Z.mul_0_r. destruct (Z.compare_spec 0 q); lia.
  - destruct (2 * (p mod q) ?= q); [destruct (Z.even (p / q)) |..]; lia.
Qed.

(** The quotient is at least [2 ^ k] where [k] is the binade. *)
Lemma binade_at_most (n d : Z) :
  0 < n -> 0 < d -> 0 <= binade n d -> d * 2 ^ binade n d <= n.
Proof.
  intros Hn Hd. unfold binade. cbv zeta.
  pose proof (Z.log2_spec n Hn) as [Hnlo _].
  pose proof (Z.log2_spec d Hd) as [_ Hdhi].
  pose proof (Z.log2_nonneg d) as Hld.
  set (k := Z.log2 n - Z.log2 d) in *.
  unfold scaled. destruct (Z.leb_spec 0 k) as [Hk | Hk].
  - destruct (Z.leb_spec (d * 2 ^ k) n) as [Hle | Hgt]; [intros _; exact Hle |].
    intros Hk1.
    assert (Hpow : 2 ^ Z.log2 n = 2 ^ (k - 1) * 2 ^ Z.succ (Z.log2 d)).
    { rewrite <- Z.pow_add_r by lia. f_equal. lia. }
    assert (0 < 2 ^ (k - 1)) by (apply Z.pow_pos_nonneg; lia).
    nia.
  - destruct (Z.leb_spec d (n * 2 ^ (- k))); lia.
Qed.

Lemma dyadic_at_least (m e c : Z) :
  e <= 0 -> c * 2 ^ (- e) <= m -> (inject_Z c <= dyadic m e)%Q.
Proof.
  intros He Hm. unfold dyadic.
  assert (Hpow : 0 < 2 ^ (- e)) by (apply Z.pow_pos_nonneg; lia).
  destruct (Z.leb_spec 0 e) as [Hpos | Hneg].
  - assert (e = 0) by lia. subst e. cbn in *. rewrite <- Zle_Qle. lia.
  - unfold Qle, inject_Z. cbn [Qnum Qden]. rewrite Z2Pos.id by exact Hpow. lia.
Qed.

Lemma dyadic_at_most (m e c : Z) :
  e <= 0 -> m <= c * 2 ^ (- e) -> (dyadic m e <= inject_Z c)%Q.
Proof.
  intros He Hm. unfold dyadic.
  assert (Hpow : 0 < 2 ^ (- e)) by (apply Z.pow_pos_nonneg; lia).
  destruct (Z.leb_spec 0 e) as [Hpos | Hneg].
  - assert (e = 0) by lia. subst e. cbn in *. rewrite <- Zle_Qle. lia.
  - unfold Qle, inject_Z. cbn [Qnum Qden]. rewrite Z2Pos.id by exact Hpow. lia.
Qed.

(** Rounding a positive quotient never crosses a whole number below [2 ^ 53]. *)
Lemma round_magnitude_at_least (n d c : Z) :
  0 < n -> 0 < d -> 0 <= c < 2 ^ 53 -> c * d <= n ->
  (inject_Z c <= round_magnitude n d)%Q.
Proof.
  intros Hn Hd Hc Hle. unfold round_magnitude. cbv zeta.
  set (e := Z.max (binade n d - 52) (-1074)).
  unfold scaled. destruct (Z.leb_spec 0 e) as [Hpos | Hneg].
  - destruct (Z.eq_dec e 0) as [-> | Hne].
    + apply dyadic_at_least; [lia |]. cbn. rewrite Z.mul_1_r.
      apply round_half_even_at_least; lia.
    + assert (He : e = binade n d - 52) by lia.
      pose proof (binade_at_most n d Hn Hd ltac:(lia)) as Hbin.
      assert (Hsplit : 2 ^ binade n d = 2 ^ 52 * 2 ^ e).
      { rewrite <- Z.pow_add_r by lia. f_equal. lia. }
      assert (Hpow : 0 < 2 ^ e) by (apply Z.pow_pos_nonneg; lia).
      assert (Hm : 2 ^ 52 <= round_half_even n (d * 2 ^ e)).
      { apply round_half_even_at_least; nia. }
      unfold dyadic. destruct (Z.leb_spec 0 e); [| lia].
      rewrite <- Zle_Qle.
      assert (2 <= 2 ^ e).
      { change 2 with (2 ^ 1) at 1. apply Z.pow_le_mono_r; lia. }
      change (2 ^ 53) with (2 ^ 52 * 2) in Hc. nia.
  - assert (Hpow : 0 < 2 ^ (- e)) by (apply Z.pow_pos_nonneg; lia).
    apply dyadic_at_least; [lia |].
    apply round_half_even_at_least; nia.
Qed.

Lemma round_magnitude_at_most (n d c : Z) :
  0 < n -> 0 < d -> 0 <= c < 2 ^ 53 -> n <= c * d ->
  (round_magnitude n d <= inject_Z c)%Q.
Proof.
  intros Hn Hd Hc Hle. unfold round_magnitude. cbv zeta.
  set (e := Z.max (binade n d - 52) (-1074)).
  unfold scaled. destruct (Z.leb_spec 0 e) as [Hpos | Hneg].
  - destruct (Z.eq_dec e 0) as [-> | Hne].
    + apply dyadic_at_most; [lia |]. cbn. rewrite Z.mul_1_r.
      apply round_half_even_at_most; lia.
    + assert (He : e = binade n d - 52) by lia.
      pose proof (binade_at_most n d Hn Hd ltac:(lia)) as Hbin.
      assert (Hsplit : 2 ^ binade n d = 2 ^ 52 * 2 ^ e).
      { rewrite <- Z.pow_add_r by lia. f_equal. lia. }
      assert (2 <= 2 ^ e).
      { change 2 with (2 ^ 1) at 1. apply Z.pow_le_mono_r; lia. }
      change (2 ^ 53) with (2 ^ 52 * 2) in Hc. nia.
  - assert (Hpow : 0 < 2 ^ (- e)) by (apply Z.pow_pos_nonneg; lia).
    apply dyadic_at_most; [lia |].
    apply round_half_even_at_most; nia.
Qed.

(** Rounding to a double never crosses a whole number of less than 54 bits. *)
Lemma round_double_at_least (x : Q) (c : Z) :
  - 2 ^ 53 < c < 2 ^ 53 -> (inject_Z c <= x)%Q -> (inject_Z c <= round_double x)%Q.
Proof.
  destruct x as [n d]. intros Hc Hx.
  unfold Qle, inject_Z in Hx. cbn [Qnum Qden] in Hx.
  unfold round_double. cbn [Qnum Qden]. destruct n as [| n | n].
  - unfold Qle, inject_Z. cbn. lia.
  - destruct (Z_le_gt_dec 0 c) as [Hpos | Hneg].
    + apply (round_magnitude_at_least (Z.pos n) (Z.pos d) c); lia.
    + apply Qle_trans with (inject_Z 0); [rewrite <- Zle_Qle; lia |].
      apply (round_magnitude_at_least (Z.pos n) (Z.pos d) 0); lia.
  - assert (Hmag : (round_magnitude (Z.pos n) (Z.pos d) <= inject_Z (- c))%Q).
    { apply round_magnitude_at_most; lia. }
    apply Qopp_le_compat in Hmag.
    eapply Qle_trans; [| exact Hmag].
    unfold Qle, inject_Z, Qopp. cbn [Qnum Qden]. lia.
Qed.

Lemma round_double_at_most (x : Q) (c : Z) :
  - 2 ^ 53 < c < 2 ^ 53 -> (x <= inject_Z c)%Q -> (round_double x <= inject_Z c)%Q.
Proof.
  destruct x as [n d]. intros Hc Hx.
  unfold Qle, inject_Z in Hx. cbn [Qnum Qden] in Hx.
  unfold round_double. cbn [Qnum Qden]. destruct n as [| n | n].
  - unfold Qle, inject_Z. cbn. lia.
  - apply (round_magnitude_at_most (Z.pos n) (Z.pos d) c); lia.
  - assert (Hmag : (inject_Z (Z.max 0 (- c)) <= round_magnitude (Z.pos n) (Z.pos d))%Q).
    { apply round_magnitude_at_least; lia. }
    apply Qopp_le_compat in Hmag.
    eapply Qle_trans; [exact Hmag |].
    unfold Qle, inject_Z, Qopp. cbn [Qnum Qden]. lia.
Qed.

Lemma float_sub_at_least (x y : Q) (c : Z) :
  - 2 ^ 53 < c < 2 ^ 53 -> (inject_Z c <= x - y)%Q -> (inject_Z c <= float_sub x y)%Q.
Proof. apply round_double_at_least. Qed.

Lemma float_sub_at_most (x y : Q) (c : Z) :
  - 2 ^ 53 < c < 2 ^ 53 -> (x - y <= inject_Z c)%Q -> (float_sub x y <= inject_Z c)%Q.
Proof. apply round_double_at_most. Qed.

(** ** Running the timer *)

Lemma Qgtb_true (x y : Q) : Qgtb x y = true <-> (y < x)%Q.
Proof.
  unfold Qgtb. rewrite negb_true_iff, <- not_true_iff_false, Qle_bool_iff.
  split; [apply Qnot_le_lt | apply Qlt_not_le].
Qed.

Lemma Qgtb_false (x y : Q) : Qgtb x y = false <-> (x <= y)%Q.
Proof.
  unfold Qgtb. rewrite negb_false_iff. apply Qle_bool_iff.
Qed.

Lemma getitem_run {A : Type} (key : GameState -> A) l w d :
  heap w !! l = Some d -> getitem key l w = Ok (key d) w.
Proof. intros H. unfold getitem, bind, load, ret. now rewrite H. Qed.

Lemma check_timer_not_playing l now w d :
  heap w !! l = Some d -> status d <> "playing" -> check_timer l now w = Ok l w.
Proof.
  intros Hl Hst. unfold check_timer.
  rewrite (bind_run _ _ _ _ _ (getitem_run status l w d Hl)).
  destruct (String.eqb_spec (status d) "playing") as [He | _]; [contradiction | reflexivity].
Qed.

Lemma check_timer_in_time l now w d started :
  heap w !! l = Some d -> start_time d = Some started ->
  (float_sub now started <= inject_Z SESSION_TIME_LIMIT_SECONDS)%Q ->
  check_timer l now w = Ok l w.
Proof.
  intros Hl Hstart Hle. unfold check_timer.
  rewrite (bind_run _ _ _ _ _ (getitem_run status l w d Hl)).
  destruct (negb (status d =? "playing")%string); [reflexivity |].
  rewrite (bind_run _ _ _ _ _ (getitem_run start_time l w d Hl)), Hstart.
  apply Qgtb_false in Hle. now rewrite Hle.
Qed.

Lemma check_timer_expired l now w d started :
  heap w !! l = Some d -> status d = "playing" -> start_time d = Some started ->
  (inject_Z SESSION_TIME_LIMIT_SECONDS < float_sub now started)%Q ->
  check_timer l now w
  = Ok (length (heap w)) (mkWorld (heap w ++ [timed_out d]) (rng w) (session w)).
Proof.
  intros Hl Hst Hstart Hlt. unfold check_timer.
  rewrite (bind_run _ _ _ _ _ (getitem_run status l w d Hl)), Hst.
  cbn [String.eqb Ascii.eqb Bool.eqb negb].
  rewrite (bind_run _ _ _ _ _ (getitem_run start_time l w d Hl)), Hstart.
  apply Qgtb_true in Hlt. rewrite Hlt.
  rewrite (bind_run _ _ _ _ _ (dict_copy_run l w d Hl)).
  repeat py_step.
  unfold ret, offered, timed_out. cbn.
  now destruct (score d >? 0).
Qed.

(** Playing without a start time: [time.time() - None]. *)
Lemma check_timer_without_start_time l now w d :
  heap w !! l = Some d -> status d = "playing" -> start_time d = None ->
  check_timer l now w = Raise TypeError.
Proof.
  intros Hl Hst Hstart. unfold check_timer.
  rewrite (bind_run _ _ _ _ _ (getitem_run status l w d Hl)), Hst.
  cbn [String.eqb Ascii.eqb Bool.eqb negb].
  now rewrite (bind_run _ _ _ _ _ (getitem_run start_time l w d Hl)), Hstart.
Qed.

(** ** Running the callbacks *)

Lemma alloc_run d h g se :
  alloc d (mkWorld h g se) = Ok (length h) (mkWorld (h ++ [d]) g se).
Proof. reflexivity. Qed.

Lemma start_game_callback_run now w :
  exists q g',
    start_game_callback now w
      = Ok tt (mkWorld (heap w ++ [first_state now q]) g' (Some (length (heap w))))
    /\ answer q = a q * b q /\ operands_match_phase 1 q.
Proof.
  destruct w as [h g se]. cbn [heap rng session].
  unfold start_game_callback, initialize_game_state.
  rewrite (bind_run _ _ _ _ _ (alloc_run default_state h g se)).
  do 3 py_step.
  destruct (generate_question_frame 1
              (h ++ [set_current_round 1 (set_start_time (Some now)
                                            (set_status "playing" default_state))]) g se)
    as (q & g' & Hgen & Hans & Hops).
  repeat py_step.
  exists q, g'. split; [reflexivity | split; assumption].
Qed.

Lemma restart_game_callback_run w :
  restart_game_callback w
  = Ok tt (mkWorld (heap w ++ [default_state]) (rng w) (Some (length (heap w)))).
Proof. reflexivity. Qed.

Lemma submit_answer_run user_answer w l d :
  session w = Some l -> heap w !! l = Some d ->
  exists d' g',
    submit_answer user_answer w
      = Ok tt (mkWorld (heap w ++ [d']) g' (Some (length (heap w))))
    /\ answered d user_answer d'.
Proof.
  intros Hs Hl.
  destruct (check_answer_run l user_answer w d Hl) as (d' & g' & Hrun & Hans).
  exists d', g'. split; [| exact Hans].
  unfold submit_answer.
  assert (Hget : get_session w = Ok l w) by (unfold get_session; now rewrite Hs).
  rewrite (bind_run _ _ _ _ _ Hget), (bind_run _ _ _ _ _ Hrun).
  reflexivity.
Qed.

Lemma close_highscore_form_run w l d :
  session w = Some l -> heap w !! l = Some d ->
  close_highscore_form w
  = Ok tt (mkWorld (heap w ++ [set_show_highscore_form false d]) (rng w)
             (Some (length (heap w)))).
Proof.
  intros Hs Hl. unfold close_highscore_form.
  assert (Hget : get_session w = Ok l w) by (unfold get_session; now rewrite Hs).
  rewrite (bind_run _ _ _ _ _ Hget), (bind_run _ _ _ _ _ (dict_copy_run l w d Hl)).
  now py_step.
Qed.

(** ** The invariant of reachable worlds *)

Lemma default_state_ok : state_ok default_state.
Proof.
  split; [split | split]; cbn; intros H; congruence.
Qed.

Lemma first_state_ok now q : state_ok (first_state now q).
Proof.
  split; [split | split]; cbn; intros H; congruence.
Qed.

Lemma answered_keeps_invariant d user_input d' :
  question_iff_playing d -> answered d user_input d' -> question_iff_playing d'.
Proof.
  intros Hinv Hans. unfold question_iff_playing in *.
  inversion Hans as [Hq | q Hq Hne | q Hq Heq Hlast | q q' Hq Heq Hmore Ha Hops];
    subst; cbn [current_question status].
  - exact Hinv.
  - split; intros H; [congruence | discriminate].
  - split; intros H; [congruence | discriminate].
  - split; intros _; [| discriminate]. apply Hinv. congruence.
Qed.

Lemma answered_ok d user_input d' : state_ok d -> answered d user_input d' -> state_ok d'.
Proof.
  intros (Hinv & Hform & Hstart) Hans.
  split; [eapply answered_keeps_invariant; eassumption |].
  inversion Hans as [Hq | q Hq Hne | q Hq Heq Hlast | q q' Hq Heq Hmore Ha Hops];
    subst; cbn [show_highscore_form start_time status];
    split; try discriminate; assumption.
Qed.

Lemma timed_out_ok d : state_ok (timed_out d).
Proof.
  split; [split | split]; cbn; intros H; congruence.
Qed.

Lemma world_ok_push h g se g' d :
  world_ok (mkWorld h g se) -> state_ok d ->
  world_ok (mkWorld (h ++ [d]) g' (Some (length h))).
Proof.
  intros [Hall _] Hd. split; cbn [heap session].
  - apply Forall_app. split; [exact Hall | now constructor].
  - intros l [= <-]. rewrite lookup_last. eauto.
Qed.

Lemma world_ok_lookup w l d : world_ok w -> heap w !! l = Some d -> state_ok d.
Proof.
  intros [Hall _] Hl. rewrite Forall_forall in Hall.
  apply Hall, list_elem_of_lookup. eauto.
Qed.

Lemma ensure_session_run w :
  ensure_session w
  = Ok tt match session w with
          | None => mkWorld (heap w ++ [default_state]) (rng w) (Some (length (heap w)))
          | Some _ => w
          end.
Proof. unfold ensure_session. now destruct (session w). Qed.

Lemma main_controller_run now w :
  world_ok w -> exists l' w', main_controller now w = Ok l' w' /\ world_ok w'.
Proof.
  intros Hok. unfold main_controller.
  rewrite (bind_run _ _ _ _ _ (ensure_session_run w)).
  set (w1 := match session w with None => _ | Some _ => w end).
  assert (Hok1 : world_ok w1).
  { subst w1. destruct w as [h g [l0 |]]; cbn [session heap rng]; [exact Hok |].
    apply (world_ok_push h g None); [exact Hok | apply default_state_ok]. }
  assert (Hs1 : exists l, session w1 = Some l).
  { subst w1. destruct (session w) eqn:E; eauto. }
  clearbody w1. destruct Hs1 as (l & Hs).
  destruct (proj2 Hok1 l Hs) as (d & Hl).
  assert (Hget : get_session w1 = Ok l w1) by (unfold get_session; now rewrite Hs).
  rewrite (bind_run _ _ _ _ _ Hget), (bind_run _ _ _ _ _ (getitem_run status l w1 d Hl)).
  destruct (String.eqb_spec (status d) "playing") as [Hst | Hst].
  2:{ exists l, w1. split; [reflexivity | exact Hok1]. }
  destruct (start_time d) as [started |] eqn:Hstart.
  2:{ destruct (world_ok_lookup w1 l d Hok1 Hl) as (_ & _ & Hstarted).
      now elim (Hstarted Hst). }
  destruct (Qgtb (float_sub now started) (inject_Z SESSION_TIME_LIMIT_SECONDS)) eqn:Hcmp.
  - apply Qgtb_true in Hcmp.
    rewrite (bind_run _ _ _ _ _ (check_timer_expired l now w1 d started Hl Hst Hstart Hcmp)).
    eexists. eexists. split; [reflexivity |]. destruct w1 as [h1 g1 se1].
    apply (world_ok_push h1 g1 se1); [exact Hok1 | apply timed_out_ok].
  - apply Qgtb_false in Hcmp.
    rewrite (bind_run _ _ _ _ _ (check_timer_in_time l now w1 d started Hl Hstart Hcmp)).
    eexists. eexists. split; [reflexivity |].
    split; [exact (proj1 Hok1) |].
    cbn [session heap]. intros ? [= <-]. eauto.
Qed.

(** From a world that satisfies the invariant every action returns, and
    returns such a world. *)
Lemma perform_run act w :
  world_ok w -> (needs_session act = true -> session w <> None) ->
  exists w', perform act w = Ok tt w' /\ world_ok w'.
Proof.
  intros Hok Hneeds. destruct act as [now | user_answer | now | |]; cbn [perform].
  - destruct (start_game_callback_run now w) as (q & g' & -> & _).
    eexists. split; [reflexivity |]. destruct w as [h g se].
    apply (world_ok_push h g se); [exact Hok | apply first_state_ok].
  - destruct (session w) as [l |] eqn:Hs; [| now elim (Hneeds eq_refl)].
    destruct (proj2 Hok l Hs) as (d & Hl).
    destruct (submit_answer_run user_answer w l d Hs Hl) as (d' & g' & -> & Hans).
    eexists. split; [reflexivity |]. destruct w as [h g se].
    apply (world_ok_push h g se); [exact Hok |].
    eapply answered_ok; [| exact Hans]. eapply world_ok_lookup; eassumption.
  - destruct (main_controller_run now w Hok) as (l' & w' & Hrun & Hok').
    exists w'. split; [now rewrite (bind_run _ _ _ _ _ Hrun) | exact Hok'].
  - rewrite restart_game_callback_run.
    eexists. split; [reflexivity |]. destruct w as [h g se].
    apply (world_ok_push h g se); [exact Hok | apply default_state_ok].
  - destruct (session w) as [l |] eqn:Hs; [| now elim (Hneeds eq_refl)].
    destruct (proj2 Hok l Hs) as (d & Hl).
    rewrite (close_highscore_form_run w l d Hs Hl).
    eexists. split; [reflexivity |]. destruct w as [h g se].
    apply (world_ok_push h g se); [exact Hok |].
    destruct (world_ok_lookup _ _ _ Hok Hl) as (Hinv & _ & Hstart).
    split; [exact Hinv | split; [intros _; reflexivity | exact Hstart]].
Qed.

Lemma perform_ok act w w' : world_ok w -> perform act w = Ok tt w' -> world_ok w'.
Proof.
  intros Hok Hrun.
  destruct (perform_run act w Hok) as (w1 & Hrun1 & Hok1).
  - intros Hneeds Hs. destruct act; try discriminate Hneeds; cbn [perform] in Hrun.
    + unfold submit_answer, bind, get_session in Hrun. now rewrite Hs in Hrun.
    + unfold close_highscore_form, bind, get_session in Hrun. now rewrite Hs in Hrun.
  - rewrite Hrun in Hrun1. injection Hrun1 as <-. exact Hok1.
Qed.

Lemma reachable_ok w : reachable w -> world_ok w.
Proof.
  induction 1 as [g | w w' act _ IH Hstep].
  - split; [constructor | intros l; discriminate].
  - eapply perform_ok; eassumption.
Qed.

Lemma reachable_perform_all (acts : list action) :
  forall w w', reachable w -> perform_all acts w = Ok tt w' -> reachable w'.
Proof.
  induction acts as [| act rest IH]; intros w w' Hreach Hrun.
  - injection Hrun as <-. exact Hreach.
  - cbn [perform_all] in Hrun. unfold bind in Hrun.
    destruct (perform act w) as [[] w1 |] eqn:Hact; [| discriminate].
    eapply IH; [| exact Hrun]. eapply reachable_step; eassumption.
Qed.

(** One correct answer into a session. *)
Example reachable_after_one_answer :
  exists w d,
    reachable w /\ session_state w = Some d
    /\ status d = "playing" /\ current_round d = 2 /\ score d = 1.
Proof.
  destruct (perform_all [Tick 0%Q; Start 0%Q; Submit 4] (initial_world sample_rng))
    as [[] w | e] eqn:Hrun.
  - exists w.
    pose proof (reachable_perform_all _ _ _ (reachable_initial sample_rng) Hrun) as Hreach.
    vm_compute in Hrun. injection Hrun as <-.
    eexists. split; [exact Hreach |]. repeat split.
  - vm_compute in Hrun. discriminate Hrun.
Qed.

(** ** Sorting the leaderboard *)

Lemma insert_desc_perm x l : Permutation (insert_desc x l) (x :: l).
Proof.
  induction l as [| y l IH]; cbn [insert_desc]; [reflexivity |].
  destruct (score_key x <? score_key y); [| reflexivity].
  rewrite IH. apply perm_swap.
Qed.

Lemma sort_desc_perm l : Permutation (sort_desc l) l.
Proof.
  induction l as [| x l IH]; [reflexivity |].
  change (sort_desc (x :: l)) with (insert_desc x (sort_desc l)).
  rewrite insert_desc_perm. now constructor.
Qed.

Lemma insert_desc_sorted x l :
  StronglySorted ranks_before l -> StronglySorted ranks_before (insert_desc x l).
Proof.
  induction 1 as [| y l Hsorted IH Hall]; cbn [insert_desc].
  - repeat constructor.
  - destruct (Z.ltb_spec (score_key x) (score_key y)) as [Hlt | Hge].
    + constructor; [exact IH |].
      rewrite insert_desc_perm. constructor; [unfold ranks_before; lia | exact Hall].
    + constructor; [now constructor |].
      constructor; [exact Hge |].
      eapply Forall_impl; [exact Hall |].
      unfold ranks_before. intros z Hz. lia.
Qed.

Lemma sort_desc_sorted l : StronglySorted ranks_before (sort_desc l).
Proof.
  induction l as [| x l IH]; [constructor |].
  change (sort_desc (x :: l)) with (insert_desc x (sort_desc l)).
  now apply insert_desc_sorted.
Qed.

Lemma insert_desc_stable k x l : with_key k (insert_desc x l) = with_key k (x :: l).
Proof.
  induction l as [| y l IH]; [reflexivity |].
  cbn [insert_desc].
  destruct (Z.ltb_spec (score_key x) (score_key y)) as [Hlt | Hge]; [| reflexivity].
  unfold with_key in *. cbn [List.filter] in *. rewrite IH.
  destruct (Z.eqb_spec (score_key x) k), (Z.eqb_spec (score_key y) k);
    try reflexivity; lia.
Qed.

Lemma sort_desc_stable k l : with_key k (sort_desc l) = with_key k l.
Proof.
  induction l as [| x l IH]; [reflexivity |].
  change (sort_desc (x :: l)) with (insert_desc x (sort_desc l)).
  rewrite insert_desc_stable. unfold with_key in *. cbn [List.filter]. now rewrite IH.
Qed.

Lemma with_key_head x l : with_key (score_key x) (x :: l) = x :: with_key (score_key x) l.
Proof. unfold with_key. cbn [List.filter]. now rewrite Z.eqb_refl. Qed.

Lemma with_key_In k x l : In x (with_key k l) -> In x l.
Proof. unfold with_key. rewrite filter_In. tauto. Qed.

(** A list has one stable descending ranking only. *)
Lemma stable_ranking_unique (l1 l2 : list HighscoreEntry) :
  StronglySorted ranks_before l1 -> StronglySorted ranks_before l2 ->
  (forall k, with_key k l1 = with_key k l2) -> l1 = l2.
Proof.
  revert l2. induction l1 as [| x l1 IH]; intros l2 Hs1 Hs2 Hkeys.
  - destruct l2 as [| y l2]; [reflexivity |].
    specialize (Hkeys (score_key y)). rewrite with_key_head in Hkeys. discriminate.
  - destruct l2 as [| y l2].
    { specialize (Hkeys (score_key x)). rewrite with_key_head in Hkeys. discriminate. }
    apply StronglySorted_inv in Hs1 as [Hs1 Hall1].
    apply StronglySorted_inv in Hs2 as [Hs2 Hall2].
    assert (Hxy : x = y).
    { destruct (Z.eq_dec (score_key x) (score_key y)) as [Heq | Hne].
      - pose proof (Hkeys (score_key x)) as Hk.
        rewrite with_key_head in Hk. rewrite Heq in Hk at 2.
        rewrite with_key_head in Hk. now injection Hk.
      - exfalso.
        assert (Hx : In x l2).
        { pose proof (Hkeys (score_key x)) as Hk. rewrite with_key_head in Hk.
          assert (Hin : In x (with_key (score_key x) (y :: l2)))
            by (rewrite <- Hk; now left).
          apply with_key_In in Hin. destruct Hin as [-> | Hin]; [congruence | exact Hin]. }
        assert (Hy : In y l1).
        { pose proof (Hkeys (score_key y)) as Hk. rewrite (with_key_head y) in Hk.
          assert (Hin : In y (with_key (score_key y) (x :: l1)))
            by (rewrite Hk; now left).
          apply with_key_In in Hin. destruct Hin as [-> | Hin]; [congruence | exact Hin]. }
        rewrite List.Forall_forall in Hall1, Hall2.
        pose proof (Hall1 y Hy). pose proof (Hall2 x Hx).
        unfold ranks_before in *. lia. }
    subst y. f_equal. apply IH; [assumption | assumption |].
    intros k. specialize (Hkeys k). unfold with_key in *. cbn [List.filter] in Hkeys.
    destruct (score_key x =? k); [now injection Hkeys | exact Hkeys].
Qed.

(** Where the new entry lands: behind the entries that score at least as
    much, in front of the others. *)
Lemma insert_desc_above (x new : HighscoreEntry) (above below : list HighscoreEntry) :
  score_key new <= score_key x ->
  insert_desc x (above ++ new :: below) = insert_desc x above ++ new :: below.
Proof.
  intros Hge. induction above as [| y above IH]; cbn [insert_desc app].
  - destruct (Z.ltb_spec (score_key x) (score_key new)); [lia | reflexivity].
  - destruct (score_key x <? score_key y); [now rewrite IH | reflexivity].
Qed.

Lemma insert_desc_below (x new : HighscoreEntry) (above below : list HighscoreEntry) :
  score_key x < score_key new ->
  Forall (fun y => score_key new <= score_key y) above ->
  insert_desc x (above ++ new :: below) = above ++ new :: insert_desc x below.
Proof.
  intros Hlt Hall. induction Hall as [| y above Hy Hall IH]; cbn [insert_desc app].
  - destruct (Z.ltb_spec (score_key x) (score_key new)); [reflexivity | lia].
  - destruct (Z.ltb_spec (score_key x) (score_key y)); [now rewrite IH | lia].
Qed.

Lemma sort_desc_new_entry (new : HighscoreEntry) (l : list HighscoreEntry) :
  exists above below,
    sort_desc (l ++ [new]) = above ++ new :: below
    /\ Forall (fun y => score_key new <= score_key y) above
    /\ length above = length (at_least (score_key new) l).
Proof.
  induction l as [| x l (above & below & Hsort & Hall & Hlen)].
  - exists [], []. repeat split. constructor.
  - change (sort_desc ((x :: l) ++ [new])) with (insert_desc x (sort_desc (l ++ [new]))).
    rewrite Hsort. unfold at_least in *. cbn [List.filter].
    destruct (Z.leb_spec (score_key new) (score_key x)) as [Hge | Hlt].
    + exists (insert_desc x above), below.
      split; [now apply insert_desc_above |].
      split.
      * rewrite insert_desc_perm. now constructor.
      * rewrite (Permutation_length (insert_desc_perm x above)). cbn [length]. now rewrite Hlen.
    + exists above, (insert_desc x below).
      split; [now apply insert_desc_below |]. split; assumption.
Qed.

(** * Properties of the specification *)

(** ** Scoring *)

(** C2: for every round 1..20 the phase and the points follow the band
    table (1..7: phase 1, 1 point; 8..14: phase 2, 5 points; 15..20: phase 3,
    10 points), and the phase never decreases as the round grows. *)
Theorem phase_and_points_follow_bands (r : Z) :
  1 <= r <= 20 ->
  (r <= 7 -> get_phase_for_round r = 1 /\ get_points_for_round r = 1) /\
  (8 <= r <= 14 -> get_phase_for_round r = 2 /\ get_points_for_round r = 5) /\
  (15 <= r -> get_phase_for_round r = 3 /\ get_points_for_round r = 10) /\
  (forall r', r <= r' <= 20 -> get_phase_for_round r <= get_phase_for_round r').
Proof.
  intros Hr.
  unfold get_phase_for_round, get_points_for_round, PHASE_1_END_ROUND,
    PHASE_2_END_ROUND, POINTS_PHASE_1, POINTS_PHASE_2, POINTS_PHASE_3.
  destruct (Z.leb_spec r 7) as [H7 | H7]; destruct (Z.leb_spec r 14) as [H14 | H14];
    repeat split; try lia; intros r' Hr';
    destruct (Z.leb_spec r' 7); destruct (Z.leb_spec r' 14); lia.
Qed.

Lemma phase_and_points_follow_bands_witness :
  get_phase_for_round 8 = 2 /\ get_points_for_round 8 = 5
  /\ get_phase_for_round 8 <= get_phase_for_round 15.
Proof.
  destruct (phase_and_points_follow_bands 8) as (_ & Hband & _ & Hmono); [lia |].
  destruct Hband as [Hphase Hpoints]; [lia |].
  split; [exact Hphase | split; [exact Hpoints | apply Hmono; lia]].
Defined.

(** ** Questions *)

(** C8: for every round from 1 on and every random source,
    [generate_question] returns a question whose answer is the product of its
    operands, with both operands in 1..10 in rounds 1..7, one operand in 1..10
    and the other in 11..20 (in either order) in rounds 8..14, and both in
    11..20 in rounds 15..20. *)
Theorem generate_question_answer_and_operands (r : Z) (w : World) :
  1 <= r ->
  exists q w',
    generate_question r w = Ok q w'
    /\ answer q = a q * b q
    /\ (r <= 7 -> (1 <= a q <= 10) /\ (1 <= b q <= 10))
    /\ (8 <= r <= 14 ->
          ((1 <= a q <= 10) /\ (11 <= b q <= 20)) \/
          ((11 <= a q <= 20) /\ (1 <= b q <= 10)))
    /\ (15 <= r <= 20 -> (11 <= a q <= 20) /\ (11 <= b q <= 20)).
Proof.
  intros _.
  destruct (generate_question_run r w) as (q & n & Hrun & Hans & H1 & H2 & H3).
  exists q, (skip n w). unfold between in *.
  repeat split; try assumption; try (apply H1; assumption); try (apply H3; lia).
Qed.

Lemma generate_question_answer_and_operands_witness :
  1 <= 9 /\
  exists q w',
    generate_question 9 (initial_world sample_rng) = Ok q w'
    /\ answer q = a q * b q
    /\ (9 <= 7 -> (1 <= a q <= 10) /\ (1 <= b q <= 10))
    /\ (8 <= 9 <= 14 ->
          ((1 <= a q <= 10) /\ (11 <= b q <= 20)) \/
          ((11 <= a q <= 20) /\ (1 <= b q <= 10)))
    /\ (15 <= 9 <= 20 -> (11 <= a q <= 20) /\ (11 <= b q <= 20)).
Proof.
  split; [lia |].
  apply (generate_question_answer_and_operands 9 (initial_world sample_rng)). lia.
Defined.

(** Both orders of the second phase occur. *)
Example phase_two_small_operand_first :
  exists w', generate_question 9 (initial_world sample_rng) = Ok (mkQuestion 4 11 44) w'.
Proof. eexists. reflexivity. Qed.

Example phase_two_large_operand_first :
  exists w',
    generate_question 9 (initial_world (mkRng (fun _ => 2 ^ 53 - 1)%N 0))
    = Ok (mkQuestion 12 2 24) w'.
Proof. eexists. vm_compute. reflexivity. Qed.

(** ** Answers *)

(** C4: in every playing state with a question, at any round, an answer
    different from the question's ends the game at once: [check_answer]
    returns a state with status [game_over], no question, and a message that
    tells the correct answer. *)
Theorem wrong_answer_ends_game (w : World) (l : loc) (d : GameState)
    (q : Question) (user_input : Z) :
  heap w !! l = Some d ->
  status d = "playing" ->
  current_question d = Some q ->
  user_input <> answer q ->
  exists l' w' d',
    check_answer l user_input w = Ok l' w'
    /\ heap w' !! l' = Some d'
    /\ status d' = "game_over"
    /\ current_question d' = None
    /\ last_message d'
       = "Oh no! The correct answer was " +:+ pretty (answer q) +:+ ". Game over.".
Proof.
  intros Hl _ Hq Hne.
  destruct (check_answer_run l user_input w d Hl) as (d' & g' & Hrun & Hans).
  exists (length (heap w)), (mkWorld (heap w ++ [d']) g' (session w)), d'.
  split; [exact Hrun |]. split; [apply lookup_last |].
  inversion Hans as [Hq' | q0 Hq' Hne' | q0 Hq' Heq Hlast | q0 q' Hq' Heq Hmore Ha Hops];
    subst; rewrite Hq in Hq'; try discriminate; injection Hq' as <-.
  - repeat split.
  - contradiction.
  - contradiction.
Qed.

Lemma wrong_answer_ends_game_witness :
  heap sample_world !! 0%nat = Some sample_playing
  /\ status sample_playing = "playing"
  /\ current_question sample_playing = Some (mkQuestion 6 7 42)
  /\ 41 <> answer (mkQuestion 6 7 42)
  /\ exists l' w' d',
       check_answer 0%nat 41 sample_world = Ok l' w'
       /\ heap w' !! l' = Some d'
       /\ status d' = "game_over"
       /\ current_question d' = None
       /\ last_message d'
          = "Oh no! The correct answer was " +:+ pretty (answer (mkQuestion 6 7 42))
              +:+ ". Game over.".
Proof.
  assert (Hne : 41 <> answer (mkQuestion 6 7 42)) by (cbn; lia).
  repeat split; try reflexivity; try exact Hne.
  apply (wrong_answer_ends_game sample_world 0%nat sample_playing (mkQuestion 6 7 42) 41);
    [reflexivity | reflexivity | reflexivity | exact Hne].
Defined.

(** C7: without a current question [check_answer] returns a state equal in
    value to its input; and in every case it returns a new object and leaves
    every object that existed before the call, the input among them, as it
    was. *)
Theorem check_answer_copies_and_never_mutates (w : World) (l : loc) (d : GameState)
    (user_input : Z) :
  heap w !! l = Some d ->
  exists l' w' d',
    check_answer l user_input w = Ok l' w'
    /\ heap w' !! l' = Some d'
    /\ (current_question d = None -> d' = d)
    /\ l' <> l
    /\ heap w !! l' = None
    /\ heap w' !! l = Some d
    /\ (forall k x, heap w !! k = Some x -> heap w' !! k = Some x).
Proof.
  intros Hl.
  destruct (check_answer_run l user_input w d Hl) as (d' & g' & Hrun & Hans).
  exists (length (heap w)), (mkWorld (heap w ++ [d']) g' (session w)), d'.
  pose proof (lookup_lt_Some _ _ _ Hl) as Hlt.
  assert (Hframe : forall k x, heap w !! k = Some x -> (heap w ++ [d']) !! k = Some x).
  { intros k x Hk. now apply lookup_app_l_Some. }
  split; [exact Hrun |]. cbn [heap].
  split; [apply lookup_last |].
  split.
  { intros Hnone. inversion Hans; subst; congruence. }
  split; [lia |].
  split; [apply lookup_ge_None; lia |].
  split; [apply Hframe, Hl | exact Hframe].
Qed.

Lemma check_answer_copies_and_never_mutates_witness :
  heap (mkWorld [default_state] sample_rng (Some 0%nat)) !! 0%nat = Some default_state
  /\ exists l' w' d',
       check_answer 0%nat 5 (mkWorld [default_state] sample_rng (Some 0%nat)) = Ok l' w'
       /\ heap w' !! l' = Some d'
       /\ (current_question default_state = None -> d' = default_state)
       /\ l' <> 0%nat
       /\ heap (mkWorld [default_state] sample_rng (Some 0%nat)) !! l' = None
       /\ heap w' !! 0%nat = Some default_state
       /\ (forall k x,
             heap (mkWorld [default_state] sample_rng (Some 0%nat)) !! k = Some x ->
             heap w' !! k = Some x).
Proof.
  split; [reflexivity |].
  apply (check_answer_copies_and_never_mutates
           (mkWorld [default_state] sample_rng (Some 0%nat)) 0%nat default_state 5).
  reflexivity.
Defined.

(** ** The timer *)

(** C5 as stated fails: on a playing state whose form is already open and
    whose score is 0, a time-out leaves the form open. *)
Lemma check_timer_keeps_open_form :
  exists l' w' d',
    status open_form_state = "playing"
    /\ start_time open_form_state = Some (1000 # 1)%Q
    /\ (inject_Z 300 < float_sub (1301 # 1) (1000 # 1))%Q
    /\ check_timer 0%nat (1301 # 1)%Q open_form_world = Ok l' w'
    /\ heap w' !! l' = Some d'
    /\ status d' = "game_over"
    /\ show_highscore_form d' = true
    /\ (score d' >? 0) = false.
Proof.
  exists 1%nat,
    (mkWorld [open_form_state; timed_out open_form_state] sample_rng (Some 0%nat)),
    (timed_out open_form_state).
  split; [reflexivity |]. split; [reflexivity |].
  split; [reflexivity |].
  split; [reflexivity |].
  split; [reflexivity |].
  repeat split.
Qed.

(** The elapsed time is the difference the code computes: more than 300
    seconds lie between the doubles nearest to 0.1 and to 300.1, their
    difference as doubles is 300, and the session goes on. *)
Lemma check_timer_rounds_elapsed_time :
  (inject_Z 300 < double_300_1 - double_0_1)%Q
  /\ (float_sub double_300_1 double_0_1 == inject_Z 300)%Q
  /\ check_timer 0%nat double_300_1 just_started_world = Ok 0%nat just_started_world.
Proof.
  split; [reflexivity |]. split; [reflexivity |].
  apply (check_timer_in_time 0%nat double_300_1 just_started_world just_started double_0_1);
    [reflexivity | reflexivity |].
  vm_compute. discriminate.
Qed.

Lemma form_open_iff_scored (shown : bool) (points : Z) :
  (points >? 0) || shown = (points >? 0) <-> shown = false \/ 0 < points.
Proof.
  destruct (Z.gtb_spec points 0) as [Hpos | Hneg]; destruct shown; cbn; split;
    try (intros _; (now left) || (now right) || reflexivity);
    try discriminate.
  intros [Hclosed | Hpos]; [discriminate | lia].
Qed.

(** C5, amended: [check_timer] returns the very state it was given, and
    changes nothing, when the status is not [playing] or the elapsed time is
    at most 300 seconds, be it the exact difference of the clock and the
    start time or the difference as the code computes it, on doubles; when
    the elapsed time as the code computes it exceeds 300 seconds while
    playing it returns a state with status [game_over], no question and the
    same score, whose highscore form is open exactly when the score is
    positive, except that a form open before stays open with a score that
    is not positive; on the state returned, as on every state that is not
    playing, further calls change nothing. *)
Theorem check_timer_effect (w : World) (l : loc) (d : GameState) (now : Q) :
  heap w !! l = Some d ->
  (status d <> "playing" -> check_timer l now w = Ok l w)
  /\ (forall started,
        status d = "playing" -> start_time d = Some started ->
        (float_sub now started <= inject_Z 300)%Q \/ (now - started <= inject_Z 300)%Q ->
        check_timer l now w = Ok l w)
  /\ (forall started,
        status d = "playing" -> start_time d = Some started ->
        (inject_Z 300 < float_sub now started)%Q ->
        exists l' w' d',
          check_timer l now w = Ok l' w'
          /\ heap w' !! l' = Some d'
          /\ status d' = "game_over"
          /\ current_question d' = None
          /\ score d' = score d
          /\ (show_highscore_form d' = (score d' >? 0)
              <-> show_highscore_form d = false \/ 0 < score d')
          /\ (forall later, check_timer l' later w' = Ok l' w')).
Proof.
  intros Hl. split; [| split].
  - intros Hst. exact (check_timer_not_playing l now w d Hl Hst).
  - intros started _ Hstart Hle.
    apply (check_timer_in_time l now w d started Hl Hstart).
    destruct Hle as [Hle | Hle]; [exact Hle |].
    apply (float_sub_at_most now started 300); [lia | exact Hle].
  - intros started Hst Hstart Hlt.
    exists (length (heap w)), (mkWorld (heap w ++ [timed_out d]) (rng w) (session w)),
      (timed_out d).
    split; [exact (check_timer_expired l now w d started Hl Hst Hstart Hlt) |].
    split; [apply lookup_last |].
    split; [reflexivity |]. split; [reflexivity |]. split; [reflexivity |].
    split.
    + cbn [timed_out show_highscore_form score]. apply form_open_iff_scored.
    + intros later.
      apply (check_timer_not_playing _ later _ (timed_out d)); [apply lookup_last |].
      cbn. discriminate.
Qed.

Lemma check_timer_effect_witness :
  heap sample_world !! 0%nat = Some sample_playing
  /\ (inject_Z 300 < float_sub (1301 # 1) (1000 # 1))%Q
  /\ exists l' w' d',
       check_timer 0%nat (1301 # 1)%Q sample_world = Ok l' w'
       /\ heap w' !! l' = Some d'
       /\ status d' = "game_over"
       /\ current_question d' = None
       /\ score d' = score sample_playing
       /\ (show_highscore_form d' = (score d' >? 0)
           <-> show_highscore_form sample_playing = false \/ 0 < score d')
       /\ (forall later, check_timer l' later w' = Ok l' w').
Proof.
  assert (Hlate : (inject_Z 300 < float_sub (1301 # 1) (1000 # 1))%Q) by reflexivity.
  split; [reflexivity |]. split; [exact Hlate |].
  destruct (check_timer_effect sample_world 0%nat sample_playing (1301 # 1)%Q eq_refl)
    as (_ & _ & Hexpired).
  exact (Hexpired (1000 # 1)%Q eq_refl eq_refl Hlate).
Defined.

(** ** The end of a session *)

(** C1 as stated fails: on a playing state whose form is already open and
    whose score is 0, a wrong answer leaves the form open. *)
Lemma check_answer_keeps_open_form :
  exists l' w' d',
    status open_form_state = "playing"
    /\ current_question open_form_state = Some (mkQuestion 6 7 42)
    /\ check_answer 0%nat 41 open_form_world = Ok l' w'
    /\ heap w' !! l' = Some d'
    /\ status d' = "game_over"
    /\ show_highscore_form d' = true
    /\ (score d' >? 0) = false.
Proof.
  exists 1%nat,
    (mkWorld
       [open_form_state;
        mkGameState "game_over" 1 0 None (Some (1000 # 1)%Q)
          "Oh no! The correct answer was 42. Game over." true]
       sample_rng (Some 0%nat)).
  eexists.
  split; [reflexivity |]. split; [reflexivity |].
  split; [reflexivity |].
  split; [reflexivity |].
  repeat split.
Qed.

(** C1, amended: from a playing state each way a session ends (a wrong
    answer, the correct answer to round 20, a time-out, which is an elapsed
    time of more than 300 seconds as the code computes it, on doubles)
    yields a state whose highscore form is open exactly when its score is
    positive, unless the form was open before and that score is not
    positive: then, and only then, the two differ.  The form is closed in
    every playing state the program reaches. *)
Theorem session_end_opens_form_iff_scored (w : World) (l : loc) (d : GameState) :
  heap w !! l = Some d ->
  status d = "playing" ->
  (forall q user_input,
     current_question d = Some q -> user_input <> answer q ->
     exists l' w' d',
       check_answer l user_input w = Ok l' w' /\ heap w' !! l' = Some d'
       /\ status d' = "game_over"
       /\ (show_highscore_form d' = (score d' >? 0)
           <-> show_highscore_form d = false \/ 0 < score d'))
  /\ (forall q,
        current_question d = Some q -> current_round d = 20 ->
        exists l' w' d',
          check_answer l (answer q) w = Ok l' w' /\ heap w' !! l' = Some d'
          /\ status d' = "game_over"
          /\ (show_highscore_form d' = (score d' >? 0)
              <-> show_highscore_form d = false \/ 0 < score d'))
  /\ (forall now started,
        start_time d = Some started -> (inject_Z 300 < float_sub now started)%Q ->
        exists l' w' d',
          check_timer l now w = Ok l' w' /\ heap w' !! l' = Some d'
          /\ status d' = "game_over"
          /\ (show_highscore_form d' = (score d' >? 0)
              <-> show_highscore_form d = false \/ 0 < score d')).
Proof.
  intros Hl Hst. split; [| split].
  - intros q user_input Hq Hne.
    destruct (check_answer_run l user_input w d Hl) as (d' & g' & Hrun & Hans).
    exists (length (heap w)), (mkWorld (heap w ++ [d']) g' (session w)), d'.
    split; [exact Hrun |]. split; [apply lookup_last |].
    inversion Hans as [Hq' | q0 Hq' Hne' | q0 Hq' Heq Hlast | q0 q' Hq' Heq Hmore Ha Hops];
      subst; rewrite Hq in Hq'; try discriminate; injection Hq' as <-;
      try contradiction.
    cbn [status show_highscore_form score]. split; [reflexivity |].
    apply form_open_iff_scored.
  - intros q Hq Hround.
    destruct (check_answer_run l (answer q) w d Hl) as (d' & g' & Hrun & Hans).
    exists (length (heap w)), (mkWorld (heap w ++ [d']) g' (session w)), d'.
    split; [exact Hrun |]. split; [apply lookup_last |].
    inversion Hans as [Hq' | q0 Hq' Hne' | q0 Hq' Heq Hlast | q0 q' Hq' Heq Hmore Ha Hops];
      subst; rewrite Hq in Hq'; try discriminate; injection Hq' as <-.
    + contradiction.
    + cbn [status show_highscore_form score]. split; [reflexivity |].
      apply form_open_iff_scored.
    + unfold TOTAL_ROUNDS in Hmore. lia.
  - intros now started Hstart Hlt.
    exists (length (heap w)), (mkWorld (heap w ++ [timed_out d]) (rng w) (session w)),
      (timed_out d).
    split; [exact (check_timer_expired l now w d started Hl Hst Hstart Hlt) |].
    split; [apply lookup_last |]. split; [reflexivity |].
    cbn [timed_out show_highscore_form score]. apply form_open_iff_scored.
Qed.

Lemma session_end_opens_form_iff_scored_witness :
  heap sample_world !! 0%nat = Some sample_playing
  /\ status sample_playing = "playing"
  /\ exists l' w' d',
       check_answer 0%nat 41 sample_world = Ok l' w' /\ heap w' !! l' = Some d'
       /\ status d' = "game_over"
       /\ (show_highscore_form d' = (score d' >? 0)
           <-> show_highscore_form sample_playing = false \/ 0 < score d').
Proof.
  destruct (session_end_opens_form_iff_scored sample_world 0%nat sample_playing
              eq_refl eq_refl) as (Hwrong & _ & _).
  split; [reflexivity |]. split; [reflexivity |].
  apply (Hwrong (mkQuestion 6 7 42) 41); [reflexivity | cbn; lia].
Defined.

(** Every playing state the program reaches has its highscore form closed. *)
Lemma reachable_playing_form_closed (w : World) (l : loc) (d : GameState) :
  reachable w -> heap w !! l = Some d -> status d = "playing" ->
  show_highscore_form d = false.
Proof.
  intros Hreach Hl Hst.
  destruct (world_ok_lookup w l d (reachable_ok w Hreach) Hl) as (_ & Hform & _).
  exact (Hform Hst).
Qed.

(** ** A perfect session *)

Lemma answer_correctly_to_the_end (n : nat) :
  forall w l d,
    session w = Some l -> heap w !! l = Some d ->
    current_question d <> None ->
    show_highscore_form d = false ->
    current_round d + Z.of_nat n = TOTAL_ROUNDS ->
    exists w' d',
      answer_correctly (S n) w = Ok tt w'
      /\ session_state w' = Some d'
      /\ score d' = score d + points_of_rounds (current_round d) (S n)
      /\ status d' = "game_over"
      /\ current_question d' = None
      /\ show_highscore_form d' = (score d' >? 0).
Proof.
  induction n as [| n IH]; intros w l d Hs Hl Hq Hform Hround.
  - destruct (submit_answer_run
                (match current_question d with Some q => answer q | None => 0 end)
                w l d Hs Hl) as (d' & g' & Hrun & Hans).
    destruct (current_question d) as [q |] eqn:Hcq; [| contradiction].
    exists (mkWorld (heap w ++ [d']) g' (Some (length (heap w)))), d'.
    split.
    { cbn [answer_correctly].
      assert (Hget : get_session w = Ok l w) by (unfold get_session; now rewrite Hs).
      rewrite (bind_run _ _ _ _ _ Hget).
      rewrite (bind_run _ _ _ _ _ (getitem_run current_question l w d Hl)), Hcq.
      now rewrite (bind_run _ _ _ _ _ Hrun). }
    split; [unfold session_state; cbn [session heap]; apply lookup_last |].
    inversion Hans as [Hq' | q0 Hq' Hne' | q0 Hq' Heq Hlast | q0 q' Hq' Heq Hmore Ha Hops];
      subst; try congruence.
    + cbn [score status current_question show_highscore_form points_of_rounds].
      rewrite Hform, orb_false_r. repeat split. lia.
    + cbn [Z.of_nat] in Hround. lia.
  - destruct (submit_answer_run
                (match current_question d with Some q => answer q | None => 0 end)
                w l d Hs Hl) as (d1 & g1 & Hrun & Hans).
    destruct (current_question d) as [q |] eqn:Hcq; [| contradiction].
    inversion Hans as [Hq' | q0 Hq' Hne' | q0 Hq' Heq Hlast | q0 q' Hq' Heq Hmore Ha Hops];
      subst; try congruence.
    + lia.
    + set (d1 := mkGameState _ _ _ _ _ _ _) in *.
      destruct (IH (mkWorld (heap w ++ [d1]) g1 (Some (length (heap w))))
                  (length (heap w)) d1)
        as (w' & d' & Hrest & Hstate & Hscore & Hstatus & Hnoq & Hshow).
      * reflexivity.
      * apply lookup_last.
      * subst d1. cbn. discriminate.
      * subst d1. cbn. exact Hform.
      * subst d1. cbn [current_round]. lia.
      * exists w', d'.
        split.
        { change (answer_correctly (S (S n)))
            with (game_data <- get_session ;;
                  question <- getitem current_question game_data ;;
                  match question with
                  | None => ret tt
                  | Some question =>
                    submit_answer (answer question) ;; answer_correctly (S n)
                  end).
          assert (Hget : get_session w = Ok l w) by (unfold get_session; now rewrite Hs).
          rewrite (bind_run _ _ _ _ _ Hget).
          rewrite (bind_run _ _ _ _ _ (getitem_run current_question l w d Hl)), Hcq.
          rewrite (bind_run _ _ _ _ _ Hrun). exact Hrest. }
        split; [exact Hstate |].
        split; [| repeat split; assumption].
        rewrite Hscore. subst d1. cbn [score current_round].
        change (points_of_rounds (current_round d) (S (S n)))
          with (get_points_for_round (current_round d)
                + points_of_rounds (current_round d + 1) (S n)).
        lia.
Qed.

(** C3: starting a session and answering all 20 questions correctly ends
    with score 102, status [game_over], no question and the highscore form
    open, whatever the clock and the random source. *)
Theorem twenty_correct_answers_score_102 (now : Q) (w : World) :
  exists w' d,
    (start_game_callback now ;; answer_correctly 20) w = Ok tt w'
    /\ session_state w' = Some d
    /\ score d = 102
    /\ status d = "game_over"
    /\ current_question d = None
    /\ show_highscore_form d = true.
Proof.
  destruct (start_game_callback_run now w) as (q & g' & Hstart & _).
  destruct (answer_correctly_to_the_end 19
              (mkWorld (heap w ++ [first_state now q]) g' (Some (length (heap w))))
              (length (heap w)) (first_state now q))
    as (w' & d & Hrun & Hstate & Hscore & Hstatus & Hnoq & Hshow).
  - reflexivity.
  - apply lookup_last.
  - discriminate.
  - reflexivity.
  - reflexivity.
  - exists w', d.
    split; [rewrite (bind_run _ _ _ _ _ Hstart); exact Hrun |].
    split; [exact Hstate |].
    assert (Hs : score d = 102) by (rewrite Hscore; reflexivity).
    split; [exact Hs |]. split; [exact Hstatus |]. split; [exact Hnoq |].
    rewrite Hshow, Hs. reflexivity.
Qed.

(** ** The invariant of the data model *)

(** C9: a question is present exactly while playing.  This holds in the
    initial state, in the state [start_game_callback] and
    [restart_game_callback] put in the session, in the state [check_answer]
    and [check_timer] return for a state that satisfies it, and therefore in
    every game state of every reachable world. *)
Theorem question_present_iff_playing :
  question_iff_playing default_state
  /\ (forall now w,
        exists w' d,
          start_game_callback now w = Ok tt w'
          /\ session_state w' = Some d /\ question_iff_playing d)
  /\ (forall w,
        exists w' d,
          restart_game_callback w = Ok tt w'
          /\ session_state w' = Some d /\ question_iff_playing d)
  /\ (forall w l d user_input,
        heap w !! l = Some d -> question_iff_playing d ->
        exists l' w' d',
          check_answer l user_input w = Ok l' w'
          /\ heap w' !! l' = Some d' /\ question_iff_playing d')
  /\ (forall w l d now,
        heap w !! l = Some d -> question_iff_playing d ->
        (status d = "playing" -> start_time d <> None) ->
        exists l' w' d',
          check_timer l now w = Ok l' w'
          /\ heap w' !! l' = Some d' /\ question_iff_playing d')
  /\ (forall w, reachable w ->
        Forall question_iff_playing (heap w)
        /\ (forall l, session w = Some l ->
              exists d, heap w !! l = Some d /\ question_iff_playing d)).
Proof.
  split; [exact (proj1 default_state_ok) |].
  split.
  { intros now w.
    destruct (start_game_callback_run now w) as (q & g' & Hrun & _).
    eexists. exists (first_state now q).
    split; [exact Hrun |].
    split; [unfold session_state; cbn [session heap]; apply lookup_last |].
    exact (proj1 (first_state_ok now q)). }
  split.
  { intros w. eexists. exists default_state.
    split; [apply restart_game_callback_run |].
    split; [unfold session_state; cbn [session heap]; apply lookup_last |].
    exact (proj1 default_state_ok). }
  split.
  { intros w l d user_input Hl Hinv.
    destruct (check_answer_run l user_input w d Hl) as (d' & g' & Hrun & Hans).
    exists (length (heap w)), (mkWorld (heap w ++ [d']) g' (session w)), d'.
    split; [exact Hrun |]. split; [apply lookup_last |].
    exact (answered_keeps_invariant d user_input d' Hinv Hans). }
  split.
  { intros w l d now Hl Hinv Hstarted.
    destruct (String.eqb_spec (status d) "playing") as [Hst | Hst].
    - destruct (start_time d) as [started |] eqn:Hstart; [| now elim (Hstarted Hst)].
      destruct (Qgtb (float_sub now started) (inject_Z SESSION_TIME_LIMIT_SECONDS)) eqn:Hcmp.
      + apply Qgtb_true in Hcmp.
        exists (length (heap w)),
          (mkWorld (heap w ++ [timed_out d]) (rng w) (session w)), (timed_out d).
        split; [exact (check_timer_expired l now w d started Hl Hst Hstart Hcmp) |].
        split; [apply lookup_last |]. exact (proj1 (timed_out_ok d)).
      + apply Qgtb_false in Hcmp.
        exists l, w, d.
        split; [exact (check_timer_in_time l now w d started Hl Hstart Hcmp) |].
        split; assumption.
    - exists l, w, d.
      split; [exact (check_timer_not_playing l now w d Hl Hst) |].
      split; assumption. }
  intros w Hreach.
  pose proof (reachable_ok w Hreach) as [Hall Hsession].
  split.
  - eapply Forall_impl; [exact Hall |]. intros d Hd. exact (proj1 Hd).
  - intros l Hs. destruct (Hsession l Hs) as (d & Hl).
    exists d. split; [exact Hl |].
    exact (proj1 (world_ok_lookup w l d (conj Hall Hsession) Hl)).
Qed.

(** ** Highscores *)

(** C6: [add_highscore] returns the first ten entries, at most, of the
    stable descending sort of the current entries followed by the new one:
    of a list with the same entries, in descending order of score, in which
    entries of equal score stand in their original order.  So do the entries
    it returns. *)
Theorem add_highscore_sorted_stable_top_ten (entry_time name : string) (score : Z)
    (current_scores : list HighscoreEntry) :
  exists ranked,
    add_highscore entry_time name score current_scores = firstn 10 ranked
    /\ Permutation ranked (current_scores ++ [mkEntry name (Some score) entry_time])
    /\ StronglySorted ranks_before ranked
    /\ (forall k,
          with_key k ranked
          = with_key k (current_scores ++ [mkEntry name (Some score) entry_time]))
    /\ (length (add_highscore entry_time name score current_scores) <= 10)%nat
    /\ StronglySorted ranks_before (add_highscore entry_time name score current_scores)
    /\ (forall k,
          exists dropped,
            with_key k (current_scores ++ [mkEntry name (Some score) entry_time])
            = with_key k (add_highscore entry_time name score current_scores) ++ dropped).
Proof.
  set (all := current_scores ++ [mkEntry name (Some score) entry_time]).
  exists (sort_desc all).
  assert (Hcut : sort_desc all
                 = add_highscore entry_time name score current_scores
                   ++ skipn 10 (sort_desc all)).
  { unfold add_highscore, MAX_HIGHSCORES. fold all. symmetry. apply firstn_skipn. }
  split; [reflexivity |].
  split; [apply sort_desc_perm |].
  split; [apply sort_desc_sorted |].
  split; [intros k; apply sort_desc_stable |].
  split; [unfold add_highscore; apply firstn_le_length |].
  split.
  - pose proof (sort_desc_sorted all) as Hsorted. rewrite Hcut in Hsorted.
    clear Hcut. revert Hsorted.
    generalize (add_highscore entry_time name score current_scores) as top.
    induction top as [| x top IH]; intros Hsorted; [constructor |].
    cbn [app] in Hsorted. apply StronglySorted_inv in Hsorted as [Hrest Hall].
    constructor; [now apply IH |].
    apply Forall_app in Hall. tauto.
  - intros k. exists (with_key k (skipn 10 (sort_desc all))).
    rewrite <- (sort_desc_stable k all), Hcut at 1.
    unfold with_key. apply List.filter_app.
Qed.

(** C10 as stated fails: on a full board of higher scores the new entry is
    not in the returned leaderboard. *)

Lemma add_highscore_drops_low_entry :
  add_highscore "2024-01-02 09:30" "" (-5) full_board = full_board
  /\ ~ In (mkEntry "" (Some (-5)) "2024-01-02 09:30")
          (add_highscore "2024-01-02 09:30" "" (-5) full_board).
Proof.
  split; [reflexivity |].
  cbn. intros H. repeat (destruct H as [H | H]; [discriminate H |]). exact H.
Qed.

(** C10, amended: [add_highscore] accepts every name and every score
    unchecked; whenever fewer than ten of the current entries score at least
    as much, the new entry stands in the returned leaderboard with exactly
    the name and score given, right behind those entries. *)
Theorem add_highscore_keeps_entry_verbatim (entry_time name : string) (score : Z)
    (current_scores : list HighscoreEntry) :
  (length (at_least score current_scores) < 10)%nat ->
  add_highscore entry_time name score current_scores
    !! length (at_least score current_scores)
  = Some (mkEntry name (Some score) entry_time)
  /\ In (mkEntry name (Some score) entry_time)
        (add_highscore entry_time name score current_scores).
Proof.
  intros Hroom.
  destruct (sort_desc_new_entry (mkEntry name (Some score) entry_time) current_scores)
    as (above & below & Hsort & _ & Hlen).
  cbn [score_key entry_score] in Hlen.
  assert (Hat : add_highscore entry_time name score current_scores
                  !! length (at_least score current_scores)
                = Some (mkEntry name (Some score) entry_time)).
  { unfold add_highscore, MAX_HIGHSCORES. rewrite Hsort, <- Hlen.
    rewrite lookup_take_lt by (rewrite Hlen; exact Hroom).
    rewrite lookup_app_r by lia. now rewrite Nat.sub_diag. }
  split; [exact Hat |].
  apply list_elem_of_In. eapply list_elem_of_lookup_2. exact Hat.
Qed.

Lemma add_highscore_keeps_entry_verbatim_witness :
  (length (at_least (-5) short_board) < 10)%nat
  /\ add_highscore "2024-01-02 09:30" "  " (-5) short_board
       !! length (at_least (-5) short_board)
     = Some (mkEntry "  " (Some (-5)) "2024-01-02 09:30")
  /\ In (mkEntry "  " (Some (-5)) "2024-01-02 09:30")
        (add_highscore "2024-01-02 09:30" "  " (-5)
           short_board).
Proof.
  assert (Hroom : (length (at_least (-5) short_board) < 10)%nat)
    by (cbn; lia).
  split; [exact Hroom |].
  apply (add_highscore_keeps_entry_verbatim "2024-01-02 09:30" "  " (-5)
           short_board Hroom).
Defined.

(** * Further properties of the code *)

(** An induction principle for the game states of reachable worlds. *)
Lemma reachable_heap_invariant (P : GameState -> Prop) :
  P default_state ->
  (forall now q, answer q = a q * b q -> operands_match_phase 1 q ->
                 P (first_state now q)) ->
  (forall d user_input d', P d -> answered d user_input d' -> P d') ->
  (forall d, P d -> status d = "playing" -> P (timed_out d)) ->
  (forall d, P d -> P (set_show_highscore_form false d)) ->
  forall w, reachable w -> Forall P (heap w).
Proof.
  intros Hdefault Hfirst Hanswered Htimed Hclosed.
  induction 1 as [g | w w' act Hreach IH Hstep]; [constructor |].
  pose proof (reachable_ok w Hreach) as Hok.
  assert (Hpush : forall d g' se', P d -> Forall P (heap (mkWorld (heap w ++ [d]) g' se'))).
  { intros d g' se' Hd. cbn [heap]. apply Forall_app. split; [exact IH | now constructor]. }
  assert (Hget : forall l d, heap w !! l = Some d -> P d).
  { intros l d Hl. rewrite Forall_forall in IH. apply IH, list_elem_of_lookup. eauto. }
  destruct act as [now | user_answer | now | |]; cbn [perform] in Hstep.
  - destruct (start_game_callback_run now w) as (q & g' & Hrun & Hans & Hops).
    rewrite Hrun in Hstep. injection Hstep as <-. apply Hpush. now apply Hfirst.
  - destruct (session w) as [l |] eqn:Hs.
    2:{ unfold submit_answer, bind, get_session in Hstep. now rewrite Hs in Hstep. }
    destruct (proj2 Hok l Hs) as (d & Hl).
    destruct (submit_answer_run user_answer w l d Hs Hl) as (d' & g' & Hrun & Hans).
    rewrite Hrun in Hstep. injection Hstep as <-. apply Hpush.
    eapply Hanswered; [exact (Hget l d Hl) | exact Hans].
  - unfold bind in Hstep.
    destruct (main_controller now w) as [l1 w1 |] eqn:Hrun; [| discriminate].
    injection Hstep as <-. revert Hrun. unfold main_controller.
    rewrite (bind_run _ _ _ _ _ (ensure_session_run w)).
    set (w0 := match session w with None => _ | Some _ => w end).
    assert (Hok0 : world_ok w0 /\ Forall P (heap w0) /\ exists l, session w0 = Some l).
    { subst w0. destruct (session w) as [l0 |] eqn:Hs.
      - split; [exact Hok |]. split; [exact IH | eauto].
      - split; [| split; [now apply Hpush | cbn; eauto]].
        destruct w as [h g se]. apply (world_ok_push h g se); [exact Hok | apply default_state_ok]. }
    clearbody w0. destruct Hok0 as (Hok0 & IH0 & l & Hs).
    destruct (proj2 Hok0 l Hs) as (d & Hl).
    assert (Hd : P d).
    { rewrite Forall_forall in IH0. apply IH0, list_elem_of_lookup. eauto. }
    assert (Hread : get_session w0 = Ok l w0) by (unfold get_session; now rewrite Hs).
    rewrite (bind_run _ _ _ _ _ Hread), (bind_run _ _ _ _ _ (getitem_run status l w0 d Hl)).
    destruct (String.eqb_spec (status d) "playing") as [Hst | Hst].
    2:{ intros [= _ <-]. exact IH0. }
    destruct (start_time d) as [started |] eqn:Hstart.
    2:{ destruct (world_ok_lookup w0 l d Hok0 Hl) as (_ & _ & Hstarted).
        now elim (Hstarted Hst). }
    destruct (Qgtb (float_sub now started) (inject_Z SESSION_TIME_LIMIT_SECONDS)) eqn:Hcmp.
    + apply Qgtb_true in Hcmp.
      rewrite (bind_run _ _ _ _ _ (check_timer_expired l now w0 d started Hl Hst Hstart Hcmp)).
      intros [= _ <-]. cbn [heap]. apply Forall_app. split; [exact IH0 |].
      constructor; [now apply Htimed | constructor].
    + apply Qgtb_false in Hcmp.
      rewrite (bind_run _ _ _ _ _ (check_timer_in_time l now w0 d started Hl Hstart Hcmp)).
      intros [= _ <-]. exact IH0.
  - rewrite restart_game_callback_run in Hstep. injection Hstep as <-. now apply Hpush.
  - destruct (session w) as [l |] eqn:Hs.
    2:{ unfold close_highscore_form, bind, get_session in Hstep. now rewrite Hs in Hstep. }
    destruct (proj2 Hok l Hs) as (d & Hl).
    rewrite (close_highscore_form_run w l d Hs Hl) in Hstep. injection Hstep as <-.
    apply Hpush. apply Hclosed. exact (Hget l d Hl).
Qed.

Lemma points_of_rounds_snoc (n : nat) :
  forall r, points_of_rounds r (S n)
            = points_of_rounds r n + get_points_for_round (r + Z.of_nat n).
Proof.
  induction n as [| n IH]; intros r.
  - cbn [points_of_rounds]. replace (r + Z.of_nat 0) with r by lia. lia.
  - change (points_of_rounds r (S (S n)))
      with (get_points_for_round r + points_of_rounds (r + 1) (S n)).
    rewrite IH. cbn [points_of_rounds].
    replace (r + 1 + Z.of_nat n) with (r + Z.of_nat (S n)) by lia. lia.
Qed.

Lemma score_at_round_next (r : Z) :
  1 <= r -> score_at_round (r + 1) = score_at_round r + get_points_for_round r.
Proof.
  intros Hr. unfold score_at_round.
  replace (Z.to_nat (r + 1 - 1)) with (S (Z.to_nat (r - 1))) by lia.
  rewrite points_of_rounds_snoc. f_equal. f_equal. lia.
Qed.

Lemma score_at_round_positive (r : Z) : 2 <= r -> 0 < score_at_round r.
Proof.
  intros Hr. unfold score_at_round.
  replace (Z.to_nat (r - 1)) with (S (Z.to_nat (r - 2))) by lia.
  cbn [points_of_rounds].
  assert (Hnonneg : forall n s, 0 <= points_of_rounds s n).
  { induction n as [| n IH]; intros s; cbn [points_of_rounds]; [lia |].
    specialize (IH (s + 1)).
    unfold get_points_for_round, POINTS_PHASE_1, POINTS_PHASE_2, POINTS_PHASE_3.
    destruct (s <=? PHASE_1_END_ROUND); [lia |]. destruct (s <=? PHASE_2_END_ROUND); lia. }
  specialize (Hnonneg (Z.to_nat (r - 2)) (1 + 1)).
  assert (Hfirst : get_points_for_round 1 = 1) by reflexivity. lia.
Qed.

Lemma well_shaped_default : well_shaped default_state.
Proof. left. reflexivity. Qed.

Lemma well_shaped_first now q :
  answer q = a q * b q -> operands_match_phase 1 q -> well_shaped (first_state now q).
Proof.
  intros Hans Hops. right. left. unfold shape_playing. cbn.
  repeat split; try lia; try discriminate. exists q. auto.
Qed.

Lemma well_shaped_answered d user_input d' :
  well_shaped d -> answered d user_input d' -> well_shaped d'.
Proof.
  intros Hd Hans.
  inversion Hans as [Hq | q Hq Hne | q Hq Heq Hlast | q q' Hq Heq Hmore Ha Hops]; subst.
  - exact Hd.
  - destruct Hd as [-> | [Hp | Hg]]; [discriminate Hq | | destruct Hg as (_ & _ & _ & Hnone & _); congruence].
    destruct Hp as (Hst & Hround & Hscore & _ & Hstart & _ & Hform).
    right. right. unfold shape_game_over. cbn [status current_round score current_question
      start_time last_message show_highscore_form].
    rewrite Hform, orb_false_r.
    split; [reflexivity |]. split; [lia |]. split; [exact Hscore |].
    split; [reflexivity |]. split; [exact Hstart |].
    split; [split; [intros Hmsg; cbn in Hmsg; discriminate Hmsg | lia] |].
    intros Hpos. apply Z.gtb_lt in Hpos. lia.
  - destruct Hd as [-> | [Hp | Hg]]; [discriminate Hq | | destruct Hg as (_ & _ & _ & Hnone & _); congruence].
    destruct Hp as (Hst & Hround & Hscore & _ & Hstart & _ & Hform).
    unfold TOTAL_ROUNDS in Hlast.
    right. right. unfold shape_game_over. cbn [status current_round score current_question
      start_time last_message show_highscore_form].
    rewrite Hform, orb_false_r.
    split; [reflexivity |]. split; [lia |].
    split; [rewrite score_at_round_next by lia; now rewrite Hscore |].
    split; [reflexivity |]. split; [exact Hstart |].
    split; [split; [lia | reflexivity] |].
    intros Hpos. apply Z.gtb_lt in Hpos. lia.
  - destruct Hd as [-> | [Hp | Hg]]; [discriminate Hq | | destruct Hg as (_ & _ & _ & Hnone & _); congruence].
    destruct Hp as (Hst & Hround & Hscore & _ & Hstart & _ & Hform).
    unfold TOTAL_ROUNDS in Hmore.
    right. left. unfold shape_playing. cbn [status current_round score current_question
      start_time last_message show_highscore_form].
    split; [exact Hst |]. split; [lia |].
    split; [rewrite score_at_round_next by lia; now rewrite Hscore |].
    split; [exists q'; auto |]. split; [exact Hstart |].
    split; [intros Hmsg; cbn in Hmsg; discriminate Hmsg | exact Hform].
Qed.

Lemma well_shaped_timed_out d :
  well_shaped d -> status d = "playing" -> well_shaped (timed_out d).
Proof.
  intros [-> | [Hp | Hg]] Hst;
    [discriminate Hst | | destruct Hg as (Hover & _); congruence].
  destruct Hp as (_ & Hround & Hscore & _ & Hstart & _ & Hform).
  right. right. unfold shape_game_over, timed_out.
  cbn [status current_round score current_question start_time last_message
       show_highscore_form].
  rewrite Hform, orb_false_r.
  split; [reflexivity |]. split; [lia |]. split; [exact Hscore |].
  split; [reflexivity |]. split; [exact Hstart |].
  split; [split; [intros Hmsg; discriminate Hmsg | lia] |].
  intros Hpos. apply Z.gtb_lt in Hpos. lia.
Qed.

Lemma well_shaped_form_closed d :
  well_shaped d -> well_shaped (set_show_highscore_form false d).
Proof.
  intros [-> | [Hp | Hg]].
  - left. reflexivity.
  - right. left. destruct Hp as (? & ? & ? & ? & ? & ? & ?).
    unfold shape_playing. cbn. repeat split; assumption || lia.
  - right. right. destruct Hg as (? & ? & ? & ? & ? & [? ?] & ?).
    unfold shape_game_over. cbn. repeat split; try assumption; try lia; try discriminate.
Qed.

Lemma reachable_well_shaped w l d :
  reachable w -> heap w !! l = Some d -> well_shaped d.
Proof.
  intros Hreach Hl.
  pose proof (reachable_heap_invariant well_shaped well_shaped_default well_shaped_first
                well_shaped_answered well_shaped_timed_out well_shaped_form_closed
                w Hreach) as Hall.
  rewrite Forall_forall in Hall. apply Hall, list_elem_of_lookup. eauto.
Qed.

(** ** Sample sessions *)

Lemma world_after_reachable acts w : reachable w -> reachable (world_after acts w).
Proof.
  intros Hreach. unfold world_after.
  destruct (perform_all acts w) as [[] w' |] eqn:Hrun; [| exact Hreach].
  exact (reachable_perform_all acts w w' Hreach Hrun).
Qed.

Lemma playing_world_reachable : reachable playing_world.
Proof. apply world_after_reachable, reachable_initial. Qed.

Lemma lost_world_reachable : reachable lost_world.
Proof. apply world_after_reachable, reachable_initial. Qed.

Lemma playing_world_session : session playing_world = Some 2%nat.
Proof. vm_compute. reflexivity. Qed.

Lemma playing_world_state : heap playing_world !! 2%nat = Some playing_state.
Proof. vm_compute. reflexivity. Qed.

Lemma lost_world_session : session lost_world = Some 3%nat.
Proof. vm_compute. reflexivity. Qed.

Lemma lost_world_state : heap lost_world !! 3%nat = Some lost_state.
Proof. vm_compute. reflexivity. Qed.

Lemma playing_world_answered : perform (Submit 40) playing_world = Ok tt answered_world.
Proof. vm_compute. reflexivity. Qed.

(** ** Answers that continue the session *)

(** X1: the correct answer to a round before the last one returns a state
    one round further, with the points of the answered round added, the same
    status, start time and highscore form, a message that tells the points,
    and a new question whose operands fit the phase of the new round. *)
Theorem correct_answer_moves_to_next_round (w : World) (l : loc) (d : GameState)
    (q : Question) :
  heap w !! l = Some d ->
  current_question d = Some q ->
  current_round d < 20 ->
  exists l' w' d' q',
    check_answer l (answer q) w = Ok l' w'
    /\ heap w' !! l' = Some d'
    /\ status d' = status d
    /\ current_round d' = current_round d + 1
    /\ score d' = score d + get_points_for_round (current_round d)
    /\ current_question d' = Some q'
    /\ answer q' = a q' * b q'
    /\ operands_match_phase (current_round d + 1) q'
    /\ last_message d'
       = "Great job! That was correct. +"
           +:+ pretty (get_points_for_round (current_round d)) +:+ " points."
    /\ start_time d' = start_time d
    /\ show_highscore_form d' = show_highscore_form d.
Proof.
  intros Hl Hq Hround.
  destruct (check_answer_run l (answer q) w d Hl) as (d' & g' & Hrun & Hans).
  inversion Hans as [Hq' | q0 Hq' Hne | q0 Hq' Heq Hlast | q0 q' Hq' Heq Hmore Ha Hops];
    subst; rewrite Hq in Hq'; try discriminate; injection Hq' as <-.
  - contradiction.
  - unfold TOTAL_ROUNDS in Hlast. lia.
  - eexists. eexists. eexists. exists q'.
    split; [exact Hrun |]. split; [apply lookup_last |].
    cbn [status current_round score current_question last_message start_time
         show_highscore_form].
    repeat (split; [reflexivity || assumption |]). reflexivity.
Qed.

Lemma correct_answer_moves_to_next_round_witness :
  heap sample_world !! 0%nat = Some sample_playing
  /\ current_question sample_playing = Some (mkQuestion 6 7 42)
  /\ current_round sample_playing < 20
  /\ exists l' w' d' q',
       check_answer 0%nat (answer (mkQuestion 6 7 42)) sample_world = Ok l' w'
       /\ heap w' !! l' = Some d'
       /\ status d' = status sample_playing
       /\ current_round d' = current_round sample_playing + 1
       /\ score d' = score sample_playing + get_points_for_round (current_round sample_playing)
       /\ current_question d' = Some q'
       /\ answer q' = a q' * b q'
       /\ operands_match_phase (current_round sample_playing + 1) q'
       /\ last_message d'
          = "Great job! That was correct. +"
              +:+ pretty (get_points_for_round (current_round sample_playing)) +:+ " points."
       /\ start_time d' = start_time sample_playing
       /\ show_highscore_form d' = show_highscore_form sample_playing.
Proof.
  assert (Hround : current_round sample_playing < 20) by (cbn; lia).
  split; [reflexivity |]. split; [reflexivity |]. split; [exact Hround |].
  exact (correct_answer_moves_to_next_round sample_world 0%nat sample_playing
           (mkQuestion 6 7 42) eq_refl eq_refl Hround).
Defined.

(** X2: [check_answer] never lowers the score or the round and never
    touches the start time; the round grows, by one, exactly when the state
    had a question and the input was its answer, and then the score grows
    too.  [check_timer] changes none of the three. *)
Theorem score_and_round_never_decrease (w : World) (l : loc) (d : GameState) :
  heap w !! l = Some d ->
  (forall user_input,
     exists l' w' d',
       check_answer l user_input w = Ok l' w' /\ heap w' !! l' = Some d'
       /\ score d <= score d'
       /\ current_round d <= current_round d' <= current_round d + 1
       /\ start_time d' = start_time d
       /\ (current_round d' = current_round d + 1
           <-> exists q, current_question d = Some q /\ user_input = answer q)
       /\ (current_round d' = current_round d + 1 -> score d < score d'))
  /\ (forall now l' w' d',
        check_timer l now w = Ok l' w' -> heap w' !! l' = Some d' ->
        score d' = score d /\ current_round d' = current_round d
        /\ start_time d' = start_time d).
Proof.
  intros Hl. split.
  - intros user_input.
    destruct (check_answer_run l user_input w d Hl) as (d' & g' & Hrun & Hans).
    eexists. eexists. exists d'.
    split; [exact Hrun |]. split; [apply lookup_last |].
    assert (Hpts : 0 < get_points_for_round (current_round d)).
    { unfold get_points_for_round, POINTS_PHASE_1, POINTS_PHASE_2, POINTS_PHASE_3.
      destruct (current_round d <=? PHASE_1_END_ROUND); [lia |].
      destruct (current_round d <=? PHASE_2_END_ROUND); lia. }
    inversion Hans as [Hq | q Hq Hne | q Hq Heq Hlast | q q' Hq Heq Hmore Ha Hops];
      subst; cbn [score current_round start_time].
    + repeat split; try lia. intros (q & Hq' & _). congruence.
    + repeat split; try lia. intros (q' & Hq' & Heq). congruence.
    + repeat split; try lia. intros _. eauto.
    + repeat split; try lia. intros _. eauto.
  - intros now l' w' d' Hrun Hl'.
    destruct (String.eqb_spec (status d) "playing") as [Hst | Hst].
    2:{ rewrite (check_timer_not_playing l now w d Hl Hst) in Hrun.
        injection Hrun as <- <-. rewrite Hl in Hl'. injection Hl' as <-. auto. }
    destruct (start_time d) as [started |] eqn:Hstart.
    2:{ rewrite (check_timer_without_start_time l now w d Hl Hst Hstart) in Hrun.
        discriminate Hrun. }
    destruct (Qgtb (float_sub now started) (inject_Z SESSION_TIME_LIMIT_SECONDS)) eqn:Hcmp.
    + apply Qgtb_true in Hcmp.
      rewrite (check_timer_expired l now w d started Hl Hst Hstart Hcmp) in Hrun.
      injection Hrun as <- <-. cbn [heap] in Hl'. rewrite lookup_last in Hl'.
      injection Hl' as <-. cbn. auto.
    + apply Qgtb_false in Hcmp.
      rewrite (check_timer_in_time l now w d started Hl Hstart Hcmp) in Hrun.
      injection Hrun as <- <-. rewrite Hl in Hl'. injection Hl' as <-. auto.
Qed.

Lemma score_and_round_never_decrease_witness :
  heap sample_world !! 0%nat = Some sample_playing
  /\ exists l' w' d',
       check_answer 0%nat 41 sample_world = Ok l' w' /\ heap w' !! l' = Some d'
       /\ score sample_playing <= score d'
       /\ current_round sample_playing <= current_round d' <= current_round sample_playing + 1
       /\ start_time d' = start_time sample_playing.
Proof.
  split; [reflexivity |].
  destruct (score_and_round_never_decrease sample_world 0%nat sample_playing eq_refl)
    as [Hanswer _].
  destruct (Hanswer 41) as (l' & w' & d' & Hrun & Hl' & Hscore & Hround & Hstart & _).
  exists l', w', d'. repeat split; assumption || apply Hround.
Defined.

(** ** A new session *)

(** X3: whatever the session held before, [start_game_callback] puts a new
    object in the session: playing, round 1, score 0, started at the time of
    the call, highscore form closed, with a question of the first phase; the
    objects that existed before stay as they were. *)
Theorem start_begins_fresh_session (now : Q) (w : World) :
  exists w' l' d q,
    start_game_callback now w = Ok tt w'
    /\ session w' = Some l' /\ heap w' !! l' = Some d
    /\ heap w !! l' = None
    /\ (forall k x, heap w !! k = Some x -> heap w' !! k = Some x)
    /\ status d = "playing"
    /\ current_round d = 1
    /\ score d = 0
    /\ start_time d = Some now
    /\ show_highscore_form d = false
    /\ last_message d = "Here is your first question. Good luck!"
    /\ current_question d = Some q
    /\ answer q = a q * b q
    /\ 1 <= a q <= 10 /\ 1 <= b q <= 10.
Proof.
  destruct (start_game_callback_run now w) as (q & g' & Hrun & Hans & Hops & _).
  exists (mkWorld (heap w ++ [first_state now q]) g' (Some (length (heap w)))),
    (length (heap w)), (first_state now q), q.
  split; [exact Hrun |]. split; [reflexivity |].
  split; [apply lookup_last |].
  split; [apply lookup_ge_None; lia |].
  split; [intros k x Hk; now apply lookup_app_l_Some |].
  destruct Hops as [Ha Hb]; [lia |]. unfold between in Ha, Hb.
  cbn. repeat split; assumption || lia.
Qed.

(** ** What reachable game states look like *)

(** The closed form of [score_at_round] on the rounds of a session. *)
Lemma score_at_round_closed_form (r : Z) :
  0 <= r <= 21 ->
  score_at_round r
  = if r <=? 8 then Z.max 0 (r - 1)
    else if r <=? 15 then 7 + 5 * (r - 8)
    else 42 + 10 * (r - 15).
Proof.
  intros Hr.
  assert (Hn : exists n, r = Z.of_nat n /\ (n <= 21)%nat)
    by (exists (Z.to_nat r); lia).
  destruct Hn as (n & -> & Hn).
  do 22 (destruct n as [| n]; [reflexivity |]). lia.
Qed.

(** X4: in every game state of a reachable world the score is decided by
    the round: 0 up to round 1, then one point for each of the rounds 1..7
    completed, five for each of 8..14 and ten for each of 15..20; so the
    round is between 0 and 21, the score between 0 and 102, and the score is
    102 exactly when round 20 was completed. *)
Theorem reachable_score_follows_round (w : World) (l : loc) (d : GameState) :
  reachable w ->
  heap w !! l = Some d ->
  0 <= current_round d <= 21
  /\ score d
     = (if current_round d <=? 8 then Z.max 0 (current_round d - 1)
        else if current_round d <=? 15 then 7 + 5 * (current_round d - 8)
        else 42 + 10 * (current_round d - 15))
  /\ 0 <= score d <= 102
  /\ (score d = 102 <-> current_round d = 21).
Proof.
  intros Hreach Hl.
  assert (Hshape : 0 <= current_round d <= 21 /\ score d = score_at_round (current_round d)).
  { destruct (reachable_well_shaped w l d Hreach Hl) as [-> | [Hp | Hg]].
    - split; [cbn; lia | reflexivity].
    - destruct Hp as (_ & Hround & Hscore & _). split; [lia | exact Hscore].
    - destruct Hg as (_ & Hround & Hscore & _). split; [lia | exact Hscore]. }
  destruct Hshape as [Hround Hscore].
  rewrite score_at_round_closed_form in Hscore by exact Hround.
  split; [exact Hround |]. split; [exact Hscore |].
  rewrite Hscore.
  destruct (Z.leb_spec (current_round d) 8); [lia |].
  destruct (Z.leb_spec (current_round d) 15); lia.
Qed.

Lemma reachable_score_follows_round_witness :
  reachable lost_world
  /\ heap lost_world !! 3%nat = Some lost_state
  /\ 0 <= current_round lost_state <= 21
  /\ score lost_state
     = (if current_round lost_state <=? 8 then Z.max 0 (current_round lost_state - 1)
        else if current_round lost_state <=? 15 then 7 + 5 * (current_round lost_state - 8)
        else 42 + 10 * (current_round lost_state - 15))
  /\ 0 <= score lost_state <= 102
  /\ (score lost_state = 102 <-> current_round lost_state = 21).
Proof.
  split; [exact lost_world_reachable |]. split; [exact lost_world_state |].
  exact (reachable_score_follows_round lost_world 3%nat lost_state
           lost_world_reachable lost_world_state).
Defined.

(** X5: in every reachable world a playing state is in one of the rounds
    1..20, has its highscore form closed, and holds a question whose answer
    is the product of its operands and whose operands fit the phase of the
    current round. *)
Theorem reachable_playing_question_fits_round (w : World) (l : loc) (d : GameState) :
  reachable w ->
  heap w !! l = Some d ->
  status d = "playing" ->
  1 <= current_round d <= 20
  /\ show_highscore_form d = false
  /\ exists q,
       current_question d = Some q
       /\ answer q = a q * b q
       /\ (get_phase_for_round (current_round d) = 1 ->
           1 <= a q <= 10 /\ 1 <= b q <= 10)
       /\ (get_phase_for_round (current_round d) = 2 ->
           (1 <= a q <= 10 /\ 11 <= b q <= 20) \/ (11 <= a q <= 20 /\ 1 <= b q <= 10))
       /\ (get_phase_for_round (current_round d) = 3 ->
           11 <= a q <= 20 /\ 11 <= b q <= 20).
Proof.
  intros Hreach Hl Hst.
  destruct (reachable_well_shaped w l d Hreach Hl) as [-> | [Hp | Hg]];
    [discriminate Hst | | destruct Hg as (Hover & _); congruence].
  destruct Hp as (_ & Hround & _ & (q & Hq & Hans & H1 & H2 & H3) & _ & _ & Hform).
  split; [exact Hround |]. split; [exact Hform |].
  exists q. split; [exact Hq |]. split; [exact Hans |].
  unfold between in *.
  unfold get_phase_for_round, PHASE_1_END_ROUND, PHASE_2_END_ROUND.
  destruct (Z.leb_spec (current_round d) 7) as [H7 | H7];
    [| destruct (Z.leb_spec (current_round d) 14) as [H14 | H14]].
  - split; [intros _; apply H1; lia |].
    split; intros Hphase; discriminate Hphase.
  - split; [intros Hphase; discriminate Hphase |].
    split; [intros _; apply H2; lia | intros Hphase; discriminate Hphase].
  - split; [intros Hphase; discriminate Hphase |].
    split; [intros Hphase; discriminate Hphase | intros _; apply H3; lia].
Qed.

Lemma reachable_playing_question_fits_round_witness :
  reachable playing_world
  /\ heap playing_world !! 2%nat = Some playing_state
  /\ status playing_state = "playing"
  /\ 1 <= current_round playing_state <= 20
  /\ show_highscore_form playing_state = false
  /\ exists q,
       current_question playing_state = Some q
       /\ answer q = a q * b q
       /\ (get_phase_for_round (current_round playing_state) = 1 ->
           1 <= a q <= 10 /\ 1 <= b q <= 10)
       /\ (get_phase_for_round (current_round playing_state) = 2 ->
           (1 <= a q <= 10 /\ 11 <= b q <= 20) \/ (11 <= a q <= 20 /\ 1 <= b q <= 10))
       /\ (get_phase_for_round (current_round playing_state) = 3 ->
           11 <= a q <= 20 /\ 11 <= b q <= 20).
Proof.
  split; [exact playing_world_reachable |]. split; [exact playing_world_state |].
  split; [reflexivity |].
  exact (reachable_playing_question_fits_round playing_world 2%nat playing_state
           playing_world_reachable playing_world_state eq_refl).
Defined.

(** X6: in every reachable world the highscore form is open only in a
    state whose session is over, that holds no question, and whose score is
    positive. *)
Theorem reachable_form_only_after_scoring (w : World) (l : loc) (d : GameState) :
  reachable w ->
  heap w !! l = Some d ->
  show_highscore_form d = true ->
  status d = "game_over" /\ current_question d = None /\ 0 < score d.
Proof.
  intros Hreach Hl Hform.
  destruct (reachable_well_shaped w l d Hreach Hl) as [-> | [Hp | Hg]].
  - discriminate Hform.
  - destruct Hp as (_ & _ & _ & _ & _ & _ & Hclosed). congruence.
  - destruct Hg as (Hover & _ & _ & Hnone & _ & _ & Hpos). auto.
Qed.

Lemma reachable_form_only_after_scoring_witness :
  reachable lost_world
  /\ heap lost_world !! 3%nat = Some lost_state
  /\ show_highscore_form lost_state = true
  /\ status lost_state = "game_over"
  /\ current_question lost_state = None
  /\ 0 < score lost_state.
Proof.
  split; [exact lost_world_reachable |]. split; [exact lost_world_state |].
  split; [reflexivity |].
  exact (reachable_form_only_after_scoring lost_world 3%nat lost_state
           lost_world_reachable lost_world_state eq_refl).
Defined.

(** X7: in every reachable world a state shows the message of completion
    exactly when its round is 21, that is when all 20 questions were answered
    correctly; its session is then over with 102 points. *)
Theorem reachable_completion_message_iff_all_rounds (w : World) (l : loc)
    (d : GameState) :
  reachable w ->
  heap w !! l = Some d ->
  (last_message d = "Wow! You finished all rounds! You are a math star!"
   <-> current_round d = 21)
  /\ (current_round d = 21 -> status d = "game_over" /\ score d = 102).
Proof.
  intros Hreach Hl.
  destruct (reachable_well_shaped w l d Hreach Hl) as [-> | [Hp | Hg]].
  - split; [split; intros H; discriminate H | intros H; discriminate H].
  - destruct Hp as (_ & Hround & _ & _ & _ & Hmsg & _).
    split; [split; [intros H; now elim Hmsg | lia] | lia].
  - destruct Hg as (Hover & Hround & Hscore & _ & _ & Hmsg & _).
    split; [exact Hmsg |]. intros H21.
    split; [exact Hover |]. rewrite Hscore, H21. reflexivity.
Qed.

Lemma won_world_reachable : reachable won_world.
Proof. apply world_after_reachable, reachable_initial. Qed.

Lemma won_world_state : heap won_world !! 21%nat = Some won_state.
Proof. vm_compute. reflexivity. Qed.

Lemma reachable_completion_message_iff_all_rounds_witness :
  reachable won_world
  /\ heap won_world !! 21%nat = Some won_state
  /\ (last_message won_state = "Wow! You finished all rounds! You are a math star!"
      <-> current_round won_state = 21)
  /\ (current_round won_state = 21 ->
      status won_state = "game_over" /\ score won_state = 102).
Proof.
  split; [exact won_world_reachable |]. split; [exact won_world_state |].
  exact (reachable_completion_message_iff_all_rounds won_world 21%nat won_state
           won_world_reachable won_world_state).
Defined.

(** ** The controller *)

Lemma main_controller_cases now w l' w' :
  world_ok w -> main_controller now w = Ok l' w' -> controlled now w l' w'.
Proof.
  intros Hok. unfold main_controller.
  rewrite (bind_run _ _ _ _ _ (ensure_session_run w)).
  destruct (session w) as [l |] eqn:Hs.
  - destruct (proj2 Hok l Hs) as (d & Hl).
    assert (Hread : get_session w = Ok l w) by (unfold get_session; now rewrite Hs).
    rewrite (bind_run _ _ _ _ _ Hread), (bind_run _ _ _ _ _ (getitem_run status l w d Hl)).
    assert (Hsame : w = mkWorld (heap w) (rng w) (Some l)).
    { destruct w as [h g se]. cbn in *. now rewrite Hs. }
    destruct (String.eqb_spec (status d) "playing") as [Hst | Hst].
    2:{ intros [= <- <-]. rewrite Hsame at 2.
        apply (controlled_kept now w l d Hs Hl). intros H. contradiction. }
    destruct (start_time d) as [started |] eqn:Hstart.
    2:{ destruct (world_ok_lookup w l d Hok Hl) as (_ & _ & Hstarted).
        now elim (Hstarted Hst). }
    destruct (Qgtb (float_sub now started) (inject_Z SESSION_TIME_LIMIT_SECONDS)) eqn:Hcmp.
    + apply Qgtb_true in Hcmp.
      rewrite (bind_run _ _ _ _ _ (check_timer_expired l now w d started Hl Hst Hstart Hcmp)).
      intros [= <- <-].
      exact (controlled_timed_out now w l d started Hs Hl Hst Hstart Hcmp).
    + apply Qgtb_false in Hcmp.
      rewrite (bind_run _ _ _ _ _ (check_timer_in_time l now w d started Hl Hstart Hcmp)).
      intros [= <- <-]. cbn [heap rng].
      apply (controlled_kept now w l d Hs Hl). intros _. eauto.
  - set (w0 := mkWorld (heap w ++ [default_state]) (rng w) (Some (length (heap w)))).
    assert (Hread : get_session w0 = Ok (length (heap w)) w0) by reflexivity.
    rewrite (bind_run _ _ _ _ _ Hread).
    rewrite (bind_run _ _ _ _ _
               (getitem_run status (length (heap w)) w0 default_state
                  (lookup_last (heap w) default_state))).
    change (status default_state =? "playing")%string with false.
    intros Hrun. injection Hrun as <- <-. now constructor.
Qed.

(** X8: no action changes a game state that exists: from a reachable
    world every action leaves the objects of the store as they were and adds
    at most one. *)
Theorem actions_never_change_existing_states (act : action) (w w' : World) :
  reachable w ->
  perform act w = Ok tt w' ->
  exists new, heap w' = heap w ++ new /\ (length new <= 1)%nat.
Proof.
  intros Hreach Hstep. pose proof (reachable_ok w Hreach) as Hok.
  destruct act as [now | user_answer | now | |]; cbn [perform] in Hstep.
  - destruct (start_game_callback_run now w) as (q & g' & Hrun & _).
    rewrite Hrun in Hstep. injection Hstep as <-. eexists. split; [reflexivity | cbn; lia].
  - destruct (session w) as [l |] eqn:Hs.
    2:{ unfold submit_answer, bind, get_session in Hstep. now rewrite Hs in Hstep. }
    destruct (proj2 Hok l Hs) as (d & Hl).
    destruct (submit_answer_run user_answer w l d Hs Hl) as (d' & g' & Hrun & _).
    rewrite Hrun in Hstep. injection Hstep as <-. eexists. split; [reflexivity | cbn; lia].
  - unfold bind in Hstep.
    destruct (main_controller now w) as [l1 w1 |] eqn:Hrun; [| discriminate].
    injection Hstep as <-.
    destruct (main_controller_cases now w l1 w1 Hok Hrun).
    + eexists. split; [reflexivity | cbn; lia].
    + exists []. split; [cbn; now rewrite app_nil_r | cbn; lia].
    + eexists. split; [reflexivity | cbn; lia].
  - rewrite restart_game_callback_run in Hstep. injection Hstep as <-.
    eexists. split; [reflexivity | cbn; lia].
  - destruct (session w) as [l |] eqn:Hs.
    2:{ unfold close_highscore_form, bind, get_session in Hstep. now rewrite Hs in Hstep. }
    destruct (proj2 Hok l Hs) as (d & Hl).
    rewrite (close_highscore_form_run w l d Hs Hl) in Hstep. injection Hstep as <-.
    eexists. split; [reflexivity | cbn; lia].
Qed.

Lemma actions_never_change_existing_states_witness :
  reachable playing_world
  /\ perform (Submit 40) playing_world = Ok tt answered_world
  /\ exists new,
       heap answered_world = heap playing_world ++ new /\ (length new <= 1)%nat.
Proof.
  split; [exact playing_world_reachable |]. split; [exact playing_world_answered |].
  exact (actions_never_change_existing_states (Submit 40) playing_world answered_world
           playing_world_reachable playing_world_answered).
Defined.

Lemma controlled_state now w l' w' :
  controlled now w l' w' ->
  exists d',
    session w' = Some l' /\ heap w' !! l' = Some d'
    /\ (status d' = "playing" ->
        exists started, start_time d' = Some started
                        /\ (float_sub now started <= inject_Z SESSION_TIME_LIMIT_SECONDS)%Q).
Proof.
  intros [Hs | l d Hs Hl Htime | l d started Hs Hl Hst Hstart Hlate].
  - exists default_state. split; [reflexivity |]. split; [apply lookup_last |].
    intros H. discriminate H.
  - exists d. split; [reflexivity |]. split; [exact Hl | exact Htime].
  - exists (timed_out d). split; [reflexivity |]. split; [apply lookup_last |].
    intros H. discriminate H.
Qed.

(** X9: from a reachable world the controller and the view routing of
    [main] return and call one of the three display functions.
    [display_welcome_screen] is called only while the session holds the
    initial state; [display_game_screen] only with a playing state that
    holds a question, so that its warning that there is none is never
    shown, and whose elapsed time was at most 300 seconds when the
    controller looked; [display_game_over_screen] only with a state that is
    over, whose highscore form is offered only with a positive score. *)
Theorem main_calls_a_display_function (now : Q) (w : World) :
  reachable w ->
  exists v w',
    main now w = Ok v w'
    /\ v <> NoScreen
    /\ (v = WelcomeScreen -> session_state w' = Some default_state)
    /\ (forall game_data,
          v = GameScreen game_data ->
          exists d q started,
            session w' = Some game_data /\ heap w' !! game_data = Some d
            /\ status d = "playing"
            /\ current_question d = Some q
            /\ start_time d = Some started
            /\ (float_sub now started <= inject_Z 300)%Q)
    /\ (forall game_data,
          v = GameOverScreen game_data ->
          exists d,
            session w' = Some game_data /\ heap w' !! game_data = Some d
            /\ status d = "game_over"
            /\ (show_highscore_form d = true -> 0 < score d)).
Proof.
  intros Hreach. pose proof (reachable_ok w Hreach) as Hok.
  destruct (main_controller_run now w Hok) as (l' & w' & Hrun & _).
  assert (Hreach' : reachable w').
  { apply (reachable_step w w' (Tick now) Hreach). cbn [perform].
    now rewrite (bind_run _ _ _ _ _ Hrun). }
  destruct (controlled_state now w l' w' (main_controller_cases now w l' w' Hok Hrun))
    as (d & Hs & Hl & Htime).
  assert (Hstate : session_state w' = Some d) by (unfold session_state; now rewrite Hs).
  unfold main.
  rewrite (bind_run _ _ _ _ _ Hrun), (bind_run _ _ _ _ _ (getitem_run status l' w' d Hl)).
  destruct (reachable_well_shaped w' l' d Hreach' Hl) as [-> | [Hp | Hg]].
  - exists WelcomeScreen, w'. split; [reflexivity |].
    split; [discriminate |]. split; [intros _; exact Hstate |].
    split; intros game_data H; discriminate H.
  - destruct Hp as (Hst & _ & _ & (q & Hq & _) & _).
    destruct (Htime Hst) as (started & Hstart & Hle).
    rewrite Hst. cbn [String.eqb Ascii.eqb Bool.eqb].
    exists (GameScreen l'), w'. split; [reflexivity |].
    split; [discriminate |]. split; [intros H; discriminate H |].
    split; [| intros game_data H; discriminate H].
    intros game_data [= <-]. exists d, q, started.
    split; [exact Hs |]. split; [exact Hl |]. split; [exact Hst |].
    split; [exact Hq |]. split; [exact Hstart | exact Hle].
  - destruct Hg as (Hst & _ & _ & _ & _ & _ & Hpos).
    rewrite Hst. cbn [String.eqb Ascii.eqb Bool.eqb].
    exists (GameOverScreen l'), w'. split; [reflexivity |].
    split; [discriminate |]. split; [intros H; discriminate H |].
    split; [intros game_data H; discriminate H |].
    intros game_data [= <-]. exists d.
    split; [exact Hs |]. split; [exact Hl |]. split; [exact Hst | exact Hpos].
Qed.

Lemma main_calls_a_display_function_witness :
  reachable playing_world
  /\ exists v w', main (10 # 1) playing_world = Ok v w' /\ v <> NoScreen.
Proof.
  split; [exact playing_world_reachable |].
  destruct (main_calls_a_display_function (10 # 1) playing_world playing_world_reachable)
    as (v & w' & Hrun & Hscreen & _).
  exists v, w'. split; [exact Hrun | exact Hscreen].
Defined.

(** ** The clock of the game screen *)

Lemma quot_towards_zero (n : Z) (p : positive) :
  (0 <= n -> 0 <= Z.quot n (Z.pos p) /\ Z.pos p * Z.quot n (Z.pos p) <= n
             /\ n < Z.pos p * Z.quot n (Z.pos p) + Z.pos p)
  /\ (n <= 0 -> Z.quot n (Z.pos p) <= 0 /\ n <= Z.pos p * Z.quot n (Z.pos p)
               /\ Z.pos p * Z.quot n (Z.pos p) - Z.pos p < n).
Proof.
  pose proof (Z.quot_rem' n (Z.pos p)) as Hdiv.
  pose proof (Z.rem_bound_abs n (Z.pos p) ltac:(lia)) as Habs.
  split; intros Hn.
  - pose proof (Z.rem_nonneg n (Z.pos p) ltac:(lia) Hn) as Hrem.
    assert (Hq : 0 <= Z.quot n (Z.pos p)) by nia.
    lia.
  - pose proof (Z.rem_nonpos n (Z.pos p) ltac:(lia) Hn) as Hrem.
    assert (Hq : Z.quot n (Z.pos p) <= 0) by nia.
    lia.
Qed.

Lemma py_int_at_most (x : Q) (hi : Z) :
  0 <= hi -> (x <= inject_Z hi)%Q -> py_int x <= hi.
Proof.
  destruct x as [n p]. unfold Qle, py_int, inject_Z. cbn [Qnum Qden].
  intros Hhi Hx. destruct (quot_towards_zero n p) as [Hpos Hneg].
  destruct (Z_le_gt_dec 0 n) as [Hn | Hn]; [specialize (Hpos Hn) | specialize (Hneg ltac:(lia))]; nia.
Qed.

Lemma py_int_at_least (x : Q) (lo : Z) :
  lo <= 0 -> (inject_Z lo <= x)%Q -> lo <= py_int x.
Proof.
  destruct x as [n p]. unfold Qle, py_int, inject_Z. cbn [Qnum Qden].
  intros Hlo Hx. destruct (quot_towards_zero n p) as [Hpos Hneg].
  destruct (Z_le_gt_dec 0 n) as [Hn | Hn]; [specialize (Hpos Hn) | specialize (Hneg ltac:(lia))]; nia.
Qed.

Lemma py_int_negative (x : Q) : (x <= inject_Z (-1))%Q -> py_int x < 0.
Proof.
  destruct x as [n p]. unfold Qle, py_int, inject_Z. cbn [Qnum Qden].
  intros Hx. destruct (quot_towards_zero n p) as [_ Hneg].
  specialize (Hneg ltac:(lia)). nia.
Qed.

Lemma ratio_of_seconds (t : Z) :
  (inject_Z t / inject_Z SESSION_TIME_LIMIT_SECONDS == t # 300)%Q.
Proof.
  unfold Qdiv, Qmult, Qinv, inject_Z, Qeq, SESSION_TIME_LIMIT_SECONDS.
  cbn [Qnum Qden]. lia.
Qed.

Lemma int_truediv_at_most (t : Z) (c : Z) :
  0 <= c <= 1 -> t <= 300 * c ->
  (int_truediv t SESSION_TIME_LIMIT_SECONDS <= inject_Z c)%Q.
Proof.
  intros Hc Ht. unfold int_truediv.
  apply round_double_at_most; [lia |].
  rewrite ratio_of_seconds. unfold Qle, inject_Z. cbn [Qnum Qden]. lia.
Qed.

Lemma percent_remaining_at_most (started now : Q) (c : Z) :
  0 <= c <= 1 -> time_left started now <= 300 * c ->
  (percent_remaining started now <= inject_Z c)%Q.
Proof.
  intros Hc Ht. unfold percent_remaining. cbv zeta.
  destruct (Qgtb _ 0); [now apply int_truediv_at_most |].
  change 0%Q with (inject_Z 0). rewrite <- Zle_Qle. lia.
Qed.

(** X10: the progress bar of the game screen never gets a value below 0,
    and none above 1 unless the clock reads less than the start time; the
    seconds left are between 0 and 300 while the elapsed time is, and below
    0, with an empty bar, once 301 seconds have passed. *)
Theorem game_screen_clock_in_range (started now : Q) :
  (0 <= percent_remaining started now)%Q
  /\ ((started <= now)%Q ->
      (percent_remaining started now <= 1)%Q /\ time_left started now <= 300)
  /\ ((now - started <= inject_Z 300)%Q -> 0 <= time_left started now)
  /\ ((inject_Z 301 <= now - started)%Q ->
      time_left started now < 0 /\ (percent_remaining started now == 0)%Q).
Proof.
  assert (Hfloor : (0 <= percent_remaining started now)%Q).
  { unfold percent_remaining. cbv zeta.
    destruct (Qgtb _ 0) eqn:Hcmp; [| apply Qle_refl].
    apply Qgtb_true in Hcmp. now apply Qlt_le_weak. }
  split; [exact Hfloor |]. split; [| split].
  - intros Hnow.
    assert (Helapsed : (inject_Z 0 <= float_sub now started)%Q).
    { apply float_sub_at_least; [lia |]. change (inject_Z 0) with 0%Q. lra. }
    assert (Hle : time_left started now <= 300).
    { unfold time_left, SESSION_TIME_LIMIT_SECONDS. cbv zeta.
      apply py_int_at_most; [lia |]. apply float_sub_at_most; [lia |].
      change (inject_Z 0) with 0%Q in Helapsed. lra. }
    split; [| exact Hle].
    apply (percent_remaining_at_most started now 1); lia.
  - intros Hin.
    assert (Helapsed : (float_sub now started <= inject_Z 300)%Q).
    { apply float_sub_at_most; [lia | exact Hin]. }
    unfold time_left, SESSION_TIME_LIMIT_SECONDS. cbv zeta.
    apply py_int_at_least; [lia |]. apply float_sub_at_least; [lia |].
    change (inject_Z 0) with 0%Q. lra.
  - intros Hlate.
    assert (Helapsed : (inject_Z 301 <= float_sub now started)%Q).
    { apply float_sub_at_least; [lia | exact Hlate]. }
    assert (Hneg : time_left started now < 0).
    { unfold time_left, SESSION_TIME_LIMIT_SECONDS. cbv zeta.
      apply py_int_negative. apply float_sub_at_most; [lia |].
      change (inject_Z 301) with 301%Q in Helapsed.
      change (inject_Z 300) with 300%Q. change (inject_Z (-1)) with (-1)%Q. lra. }
    split; [exact Hneg |].
    apply Qle_antisym; [| exact Hfloor].
    apply (percent_remaining_at_most started now 0); lia.
Qed.

(** ** Where a new entry lands *)

Lemma insert_desc_front (s : Z) (x : HighscoreEntry) (above rest : list HighscoreEntry) :
  s <= score_key x ->
  Forall (fun y => score_key y < s) rest ->
  insert_desc x (above ++ rest) = insert_desc x above ++ rest.
Proof.
  intros Hge Hrest. induction above as [| y above IH]; cbn [insert_desc app].
  - destruct Hrest as [| y rest Hy Hrest]; [reflexivity |].
    cbn [insert_desc]. destruct (Z.ltb_spec (score_key x) (score_key y)); [lia | reflexivity].
  - destruct (score_key x <? score_key y); [now rewrite IH | reflexivity].
Qed.

Lemma insert_desc_back (s : Z) (x : HighscoreEntry) (above rest : list HighscoreEntry) :
  score_key x < s ->
  Forall (fun y => s <= score_key y) above ->
  insert_desc x (above ++ rest) = above ++ insert_desc x rest.
Proof.
  intros Hlt Habove. induction Habove as [| y above Hy Habove IH]; cbn [insert_desc app].
  - reflexivity.
  - destruct (Z.ltb_spec (score_key x) (score_key y)); [now rewrite IH | lia].
Qed.

Lemma sort_desc_cons x l : sort_desc (x :: l) = insert_desc x (sort_desc l).
Proof. reflexivity. Qed.

Lemma Forall_sort_desc (P : HighscoreEntry -> Prop) l : Forall P l -> Forall P (sort_desc l).
Proof. intros H. now rewrite sort_desc_perm. Qed.

Lemma at_least_all s l : Forall (fun y => s <= score_key y) (at_least s l).
Proof.
  unfold at_least. apply List.Forall_forall. intros y Hy.
  apply filter_In in Hy as [_ Hy]. now apply Z.leb_le.
Qed.

Lemma below_all s l : Forall (fun y => score_key y < s) (below s l).
Proof.
  unfold below. apply List.Forall_forall. intros y Hy.
  apply filter_In in Hy as [_ Hy]. now apply Z.ltb_lt.
Qed.

(** A ranking is the ranking of the entries that score at least [s]
    followed by the ranking of the others. *)
Lemma sort_desc_by_threshold (s : Z) (l : list HighscoreEntry) :
  sort_desc l = sort_desc (at_least s l) ++ sort_desc (below s l).
Proof.
  induction l as [| x l IH]; [reflexivity |].
  rewrite sort_desc_cons, IH. unfold at_least, below. cbn [List.filter].
  destruct (Z.leb_spec s (score_key x)) as [Hge | Hlt].
  - destruct (Z.ltb_spec (score_key x) s) as [Hlt' | _]; [lia |].
    rewrite sort_desc_cons.
    apply (insert_desc_front s); [exact Hge |]. apply Forall_sort_desc, below_all.
  - destruct (Z.ltb_spec (score_key x) s) as [_ | Hge']; [| lia].
    rewrite sort_desc_cons.
    apply (insert_desc_back s); [exact Hlt |]. apply Forall_sort_desc, at_least_all.
Qed.

Lemma sort_desc_with_new (new : HighscoreEntry) (l : list HighscoreEntry) :
  sort_desc (l ++ [new])
  = sort_desc (at_least (score_key new) l) ++ new :: sort_desc (below (score_key new) l).
Proof.
  induction l as [| x l IH]; [reflexivity |].
  change ((x :: l) ++ [new]) with (x :: (l ++ [new])).
  rewrite sort_desc_cons, IH. unfold at_least, below. cbn [List.filter].
  destruct (Z.leb_spec (score_key new) (score_key x)) as [Hge | Hlt].
  - destruct (Z.ltb_spec (score_key x) (score_key new)) as [Hlt' | _]; [lia |].
    rewrite sort_desc_cons. now apply insert_desc_above.
  - destruct (Z.ltb_spec (score_key x) (score_key new)) as [_ | Hge']; [| lia].
    rewrite sort_desc_cons.
    apply insert_desc_below; [exact Hlt |]. apply Forall_sort_desc, at_least_all.
Qed.

(** X11: [add_highscore] puts the new entry right behind the ranked
    entries that score at least as much, so that on a tie the earlier entry
    stays ahead, and in front of the ranked entries that score less; the
    result is the first ten entries of that list, one entry more than before
    until there are ten. *)
Theorem add_highscore_places_new_entry (entry_time name : string) (score : Z)
    (current_scores : list HighscoreEntry) :
  add_highscore entry_time name score current_scores
  = firstn 10
      (sort_desc (at_least score current_scores)
         ++ mkEntry name (Some score) entry_time
         :: sort_desc (below score current_scores))
  /\ length (add_highscore entry_time name score current_scores)
     = Nat.min 10 (S (length current_scores)).
Proof.
  unfold add_highscore, MAX_HIGHSCORES. split.
  - now rewrite sort_desc_with_new.
  - rewrite length_firstn, (Permutation_length (sort_desc_perm _)), length_app.
    cbn [length]. lia.
Qed.

Lemma firstn_app_le {A : Type} (n : nat) (l1 l2 l3 : list A) :
  (n <= length l1)%nat -> firstn n (l1 ++ l2) = firstn n (l1 ++ l3).
Proof.
  intros Hn. rewrite !firstn_app.
  replace (n - length l1)%nat with 0%nat by lia. reflexivity.
Qed.

(** X12: when ten of the current entries score at least as much as the new
    score, [add_highscore] returns the ranked top ten of the current entries
    alone: matching the tenth place is not enough to get on the board. *)
Theorem add_highscore_full_board_keeps_top_ten (entry_time name : string) (score : Z)
    (current_scores : list HighscoreEntry) :
  (10 <= length (at_least score current_scores))%nat ->
  add_highscore entry_time name score current_scores
  = firstn 10 (sort_desc current_scores).
Proof.
  intros Hfull. unfold add_highscore, MAX_HIGHSCORES.
  rewrite sort_desc_with_new, (sort_desc_by_threshold score current_scores).
  cbn [score_key entry_score].
  apply firstn_app_le.
  now rewrite (Permutation_length (sort_desc_perm _)).
Qed.

Lemma add_highscore_full_board_keeps_top_ten_witness :
  (10 <= length (at_least 102 full_board))%nat
  /\ add_highscore "2024-01-02 09:30" "Bob" 102 full_board
     = firstn 10 (sort_desc full_board).
Proof.
  assert (Hfull : (10 <= length (at_least 102 full_board))%nat) by (cbn; lia).
  split; [exact Hfull |].
  exact (add_highscore_full_board_keeps_top_ten "2024-01-02 09:30" "Bob" 102
           full_board Hfull).
Defined.

(** ** The leaderboard file *)

Lemma sort_desc_ranked l : StronglySorted ranks_before l -> sort_desc l = l.
Proof.
  intros Hsorted.
  apply stable_ranking_unique; [apply sort_desc_sorted | exact Hsorted |].
  intros k. apply sort_desc_stable.
Qed.

Lemma firstn_ranked (n : nat) l :
  StronglySorted ranks_before l -> StronglySorted ranks_before (firstn n l).
Proof.
  revert n. induction l as [| x l IH]; intros n Hsorted.
  - rewrite firstn_nil. constructor.
  - destruct n as [| n]; [constructor |].
    apply StronglySorted_inv in Hsorted as [Hrest Hall].
    cbn [firstn]. constructor; [now apply IH |].
    rewrite List.Forall_forall in *. intros y Hy. apply Hall.
    rewrite <- (firstn_skipn n l). apply in_or_app. now left.
Qed.

Lemma add_highscore_ranked entry_time name score current_scores :
  StronglySorted ranks_before (add_highscore entry_time name score current_scores).
Proof. unfold add_highscore. apply firstn_ranked, sort_desc_sorted. Qed.

Lemma load_highscores_ranked filepath disk :
  StronglySorted ranks_before (load_highscores filepath disk).
Proof.
  unfold load_highscores.
  destruct (content disk filepath) as [[| scores] |];
    [constructor | apply sort_desc_sorted | constructor].
Qed.

Lemma content_write_file filepath text disk :
  content (write_file filepath text disk) filepath = Some text.
Proof. unfold content, write_file. cbn [files file_of]. apply lookup_insert_eq. Qed.

Lemma load_write_file_entries filepath scores disk :
  load_highscores filepath (write_file filepath (JsonEntries scores) disk)
  = sort_desc scores.
Proof. unfold load_highscores. now rewrite content_write_file. Qed.

Lemma load_write_file_no_json filepath disk :
  load_highscores filepath (write_file filepath NotJson disk) = [].
Proof. unfold load_highscores. now rewrite content_write_file. Qed.

Lemma file_of_save_highscores filepath scores disk path :
  file_of (save_highscores filepath scores disk) path = file_of disk path.
Proof. unfold save_highscores. now destruct (writing disk). Qed.

(** X13: when the whole text is written, loading after saving gives the
    ranking of what was saved, and exactly what was saved if that was ranked
    already, as the results of [add_highscore] are.  When the file cannot
    be opened saving changes nothing; when the write breaks off the file
    loads as the empty leaderboard.  However the write goes, the paths that
    name other files read as before, and the paths that name the same file
    read what [filepath] reads. *)
Theorem load_after_save (filepath : string) (scores : list HighscoreEntry) (disk : Disk) :
  (writing disk = WritesAll ->
   load_highscores filepath (save_highscores filepath scores disk) = sort_desc scores
   /\ (StronglySorted ranks_before scores ->
       load_highscores filepath (save_highscores filepath scores disk) = scores)
   /\ (forall entry_time name score current_scores,
         scores = add_highscore entry_time name score current_scores ->
         load_highscores filepath (save_highscores filepath scores disk) = scores))
  /\ (writing disk = OpenFails -> save_highscores filepath scores disk = disk)
  /\ (writing disk = WritesPart ->
      load_highscores filepath (save_highscores filepath scores disk) = [])
  /\ (forall other,
        file_of disk other <> file_of disk filepath ->
        load_highscores other (save_highscores filepath scores disk)
        = load_highscores other disk)
  /\ (forall other,
        file_of disk other = file_of disk filepath ->
        load_highscores other (save_highscores filepath scores disk)
        = load_highscores filepath (save_highscores filepath scores disk)).
Proof.
  assert (Hread : writing disk = WritesAll ->
            load_highscores filepath (save_highscores filepath scores disk)
            = sort_desc scores).
  { intros Hw. unfold save_highscores. rewrite Hw. apply load_write_file_entries. }
  split; [| split; [| split; [| split]]].
  - intros Hw. split; [exact (Hread Hw) |]. split.
    + intros Hsorted. rewrite (Hread Hw). now apply sort_desc_ranked.
    + intros entry_time name score current_scores ->. rewrite (Hread Hw).
      apply sort_desc_ranked, add_highscore_ranked.
  - intros Hw. unfold save_highscores. now rewrite Hw.
  - intros Hw. unfold save_highscores. rewrite Hw. apply load_write_file_no_json.
  - intros other Hother. unfold load_highscores, content, save_highscores, write_file.
    destruct (writing disk); cbn [files file_of]; [| reflexivity |];
      now rewrite lookup_insert_ne by congruence.
  - intros other Hother. unfold load_highscores, content.
    now rewrite !file_of_save_highscores, Hother.
Qed.

Lemma load_after_save_witness :
  writing fresh_disk = WritesAll
  /\ load_highscores HIGHSCORE_FILE (save_highscores HIGHSCORE_FILE short_board fresh_disk)
     = short_board
  /\ save_highscores HIGHSCORE_FILE short_board locked_disk = locked_disk
  /\ load_highscores HIGHSCORE_FILE (save_highscores HIGHSCORE_FILE short_board full_disk)
     = [].
Proof.
  destruct (load_after_save HIGHSCORE_FILE short_board fresh_disk) as (Hall & _).
  destruct (load_after_save HIGHSCORE_FILE short_board locked_disk) as (_ & Hopen & _).
  destruct (load_after_save HIGHSCORE_FILE short_board full_disk) as (_ & _ & Hpart & _).
  split; [reflexivity |].
  split; [exact (proj1 (Hall eq_refl)) |].
  split; [exact (Hopen eq_refl) | exact (Hpart eq_refl)].
Defined.

(** X14: saving the leaderboard as loaded and loading it again gives the
    same leaderboard, whatever the file held, unless the write breaks off:
    then the leaderboard that was there is lost, and the empty one is
    loaded. *)
Theorem save_of_load_then_load (filepath : string) (disk : Disk) :
  load_highscores filepath
    (save_highscores filepath (load_highscores filepath disk) disk)
  = match writing disk with
    | WritesAll | OpenFails => load_highscores filepath disk
    | WritesPart => []
    end.
Proof.
  unfold save_highscores. destruct (writing disk) eqn:Hw.
  - rewrite load_write_file_entries. apply sort_desc_ranked, load_highscores_ranked.
  - reflexivity.
  - apply load_write_file_no_json.
Qed.

(** ** The highscore form *)

Lemma lstrip_all_space s : all_space s = true -> lstrip s = EmptyString.
Proof.
  induction s as [| c s IH]; [reflexivity |].
  cbn [all_space lstrip]. intros H. apply andb_true_iff in H as [Hc Hs].
  rewrite Hc. now apply IH.
Qed.

Lemma strip_all_space s : all_space s = true -> strip s = EmptyString.
Proof. intros H. unfold strip. now rewrite lstrip_all_space. Qed.

Lemma lstrip_head s :
  lstrip s = EmptyString
  \/ exists c r, lstrip s = String c r /\ is_space c = false.
Proof.
  induction s as [| c s IH]; [now left |].
  cbn [lstrip]. destruct (is_space c) eqn:Hc; [exact IH |]. right. eauto.
Qed.

Lemma rstrip_head c r :
  is_space c = false -> exists r', rstrip (String c r) = String c r'.
Proof.
  intros Hc. cbn [rstrip]. destruct (rstrip r); [rewrite Hc |]; eauto.
Qed.

Lemma rstrip_idempotent s : rstrip (rstrip s) = rstrip s.
Proof.
  induction s as [| c s IH]; [reflexivity |].
  cbn [rstrip]. destruct (rstrip s) as [| c' r] eqn:Hr.
  - destruct (is_space c) eqn:Hc; [reflexivity |]. cbn [rstrip]. now rewrite Hc.
  - change (rstrip (String c (String c' r)))
      with (match rstrip (String c' r) with
            | EmptyString => if is_space c then EmptyString else String c EmptyString
            | rest => String c rest
            end).
    now rewrite IH.
Qed.

Lemma strip_idempotent s : strip (strip s) = strip s.
Proof.
  unfold strip. destruct (lstrip_head s) as [-> | (c & r & -> & Hc)]; [reflexivity |].
  destruct (rstrip_head c r Hc) as (r' & Hr). rewrite Hr.
  cbn [lstrip]. rewrite Hc, <- Hr. apply rstrip_idempotent.
Qed.

(** What the form does, by the state the session holds. *)
Lemma save_highscore_form_run entry_time player_name disk w l d :
  session w = Some l -> heap w !! l = Some d ->
  save_highscore_form entry_time player_name disk w
  = if show_highscore_form d then
      if String.eqb player_name "" then Ok (disk, Some PleaseEnterName) w
      else
        Ok (save_highscores HIGHSCORE_FILE
              (add_highscore entry_time (strip player_name) (score d)
                 (load_highscores HIGHSCORE_FILE disk))
              disk,
            Some (ScoreSaved player_name))
           (mkWorld (heap w ++ [set_show_highscore_form false d]) (rng w)
              (Some (length (heap w))))
    else Ok (disk, None) w.
Proof.
  intros Hs Hl. unfold save_highscore_form.
  assert (Hread : get_session w = Ok l w) by (unfold get_session; now rewrite Hs).
  rewrite (bind_run _ _ _ _ _ Hread).
  rewrite (bind_run _ _ _ _ _ (getitem_run show_highscore_form l w d Hl)).
  destruct (show_highscore_form d); [| reflexivity].
  destruct (String.eqb player_name ""); [reflexivity |].
  rewrite (bind_run _ _ _ _ _ (getitem_run score l w d Hl)).
  rewrite (bind_run _ _ _ _ _ (dict_copy_run l w d Hl)).
  now py_step.
Qed.

(** X15: submitted with a name that is not empty while the form is open,
    on a writable disk, the highscore form leaves a leaderboard file that
    loads as [add_highscore] of the trimmed name, the score of the session
    and the leaderboard loaded before, which is the new entry alone when the
    file was missing or no JSON; it answers that the score is saved and puts
    a copy of the state with the form closed in the session. *)
Theorem highscore_form_saves_the_score (entry_time player_name : string) (disk : Disk)
    (w : World) (l : loc) (d : GameState) :
  session w = Some l ->
  heap w !! l = Some d ->
  show_highscore_form d = true ->
  player_name <> "" ->
  writable disk = true ->
  exists disk' w' l',
    save_highscore_form entry_time player_name disk w
      = Ok (disk', Some (ScoreSaved player_name)) w'
    /\ load_highscores HIGHSCORE_FILE disk'
       = add_highscore entry_time (strip player_name) (score d)
           (load_highscores HIGHSCORE_FILE disk)
    /\ (content disk HIGHSCORE_FILE = None
        \/ content disk HIGHSCORE_FILE = Some NotJson ->
        load_highscores HIGHSCORE_FILE disk'
        = [mkEntry (strip player_name) (Some (score d)) entry_time])
    /\ session w' = Some l'
    /\ heap w' !! l' = Some (set_show_highscore_form false d)
    /\ heap w' !! l = Some d.
Proof.
  intros Hs Hl Hform Hname Hw.
  rewrite (save_highscore_form_run entry_time player_name disk w l d Hs Hl), Hform.
  destruct (String.eqb_spec player_name "") as [Hempty | _]; [contradiction |].
  eexists. eexists. exists (length (heap w)).
  split; [reflexivity |].
  assert (Hload : load_highscores HIGHSCORE_FILE
                    (save_highscores HIGHSCORE_FILE
                       (add_highscore entry_time (strip player_name) (score d)
                          (load_highscores HIGHSCORE_FILE disk)) disk)
                  = add_highscore entry_time (strip player_name) (score d)
                      (load_highscores HIGHSCORE_FILE disk)).
  { unfold save_highscores. unfold writable in Hw.
    destruct (writing disk); try discriminate Hw.
    rewrite load_write_file_entries. apply sort_desc_ranked, add_highscore_ranked. }
  split; [exact Hload |].
  split.
  { intros Hfile. rewrite Hload.
    assert (Hnone : load_highscores HIGHSCORE_FILE disk = []).
    { unfold load_highscores. now destruct Hfile as [-> | ->]. }
    now rewrite Hnone. }
  split; [reflexivity |]. cbn [heap].
  split; [apply lookup_last |]. now apply lookup_app_l_Some.
Qed.

(** X16: when the write does not put its whole text in the file, the form
    behaves towards the player as if it had: it answers that the score is
    saved and closes, and once the form is closed, submitting it again, on
    whatever disk, does nothing.  The disk stays as it was when the file
    cannot be opened; when the write breaks off, the leaderboard file is
    left without JSON and loads as the empty leaderboard. *)
Theorem highscore_form_loses_score_on_write_failure (entry_time player_name : string)
    (disk : Disk) (w : World) (l : loc) (d : GameState) :
  session w = Some l ->
  heap w !! l = Some d ->
  show_highscore_form d = true ->
  player_name <> "" ->
  writable disk = false ->
  exists disk' w',
    save_highscore_form entry_time player_name disk w
      = Ok (disk', Some (ScoreSaved player_name)) w'
    /\ session_state w' = Some (set_show_highscore_form false d)
    /\ (writing disk = OpenFails -> disk' = disk)
    /\ (writing disk = WritesPart ->
        content disk' HIGHSCORE_FILE = Some NotJson
        /\ load_highscores HIGHSCORE_FILE disk' = [])
    /\ (forall later_time later_name later_disk,
          save_highscore_form later_time later_name later_disk w'
          = Ok (later_disk, None) w').
Proof.
  intros Hs Hl Hform Hname Hw.
  rewrite (save_highscore_form_run entry_time player_name disk w l d Hs Hl), Hform.
  destruct (String.eqb_spec player_name "") as [Hempty | _]; [contradiction |].
  eexists. eexists. split; [reflexivity |].
  split; [unfold session_state; cbn [session heap]; apply lookup_last |].
  split; [| split].
  - intros Hopen. unfold save_highscores. now rewrite Hopen.
  - intros Hpart. unfold save_highscores. rewrite Hpart.
    split; [apply content_write_file | apply load_write_file_no_json].
  - intros later_time later_name later_disk.
    now rewrite (save_highscore_form_run later_time later_name later_disk
                   (mkWorld (heap w ++ [set_show_highscore_form false d]) (rng w)
                      (Some (length (heap w))))
                   (length (heap w)) (set_show_highscore_form false d)
                   eq_refl (lookup_last (heap w) _)).
Qed.

(** X17: a name of white space only passes the test for an empty name,
    which looks at the name before it is trimmed: the form then saves an
    entry whose name is empty. *)
Theorem blank_name_is_saved_as_empty (entry_time player_name : string) (disk : Disk)
    (w : World) (l : loc) (d : GameState) :
  session w = Some l ->
  heap w !! l = Some d ->
  show_highscore_form d = true ->
  player_name <> "" ->
  all_space player_name = true ->
  exists w',
    save_highscore_form entry_time player_name disk w
      = Ok (save_highscores HIGHSCORE_FILE
              (add_highscore entry_time "" (score d)
                 (load_highscores HIGHSCORE_FILE disk))
              disk,
            Some (ScoreSaved player_name)) w'.
Proof.
  intros Hs Hl Hform Hname Hblank.
  rewrite (save_highscore_form_run entry_time player_name disk w l d Hs Hl), Hform.
  destruct (String.eqb_spec player_name "") as [Hempty | _]; [contradiction |].
  rewrite (strip_all_space player_name Hblank).
  eexists. reflexivity.
Qed.

Lemma highscore_form_saves_the_score_witness :
  session lost_world = Some 3%nat
  /\ heap lost_world !! 3%nat = Some lost_state
  /\ show_highscore_form lost_state = true
  /\ "  Bob " <> ""
  /\ writable fresh_disk = true
  /\ exists disk' w',
       save_highscore_form "2024-01-02 09:30" "  Bob " fresh_disk lost_world
         = Ok (disk', Some (ScoreSaved "  Bob ")) w'
       /\ load_highscores HIGHSCORE_FILE disk'
          = [mkEntry "Bob" (Some 1) "2024-01-02 09:30"]
       /\ session_state w' = Some (set_show_highscore_form false lost_state).
Proof.
  assert (Hname : "  Bob " <> "") by discriminate.
  split; [exact lost_world_session |]. split; [exact lost_world_state |].
  split; [reflexivity |].
  split; [exact Hname |]. split; [reflexivity |].
  destruct (highscore_form_saves_the_score "2024-01-02 09:30" "  Bob " fresh_disk
              lost_world 3%nat lost_state lost_world_session lost_world_state
              eq_refl Hname eq_refl)
    as (disk' & w' & l' & Hrun & _ & Hnew & Hs & Hl' & _).
  exists disk', w'. split; [exact Hrun |].
  split; [apply Hnew; now left |].
  unfold session_state. now rewrite Hs.
Defined.

Lemma highscore_form_loses_score_on_write_failure_witness :
  session lost_world = Some 3%nat
  /\ heap lost_world !! 3%nat = Some lost_state
  /\ show_highscore_form lost_state = true
  /\ "Bob" <> ""
  /\ writable full_disk = false
  /\ exists disk' w',
       save_highscore_form "2024-01-02 09:30" "Bob" full_disk lost_world
         = Ok (disk', Some (ScoreSaved "Bob")) w'
       /\ session_state w' = Some (set_show_highscore_form false lost_state)
       /\ content disk' HIGHSCORE_FILE = Some NotJson
       /\ load_highscores HIGHSCORE_FILE disk' = [].
Proof.
  assert (Hname : "Bob" <> "") by discriminate.
  split; [exact lost_world_session |]. split; [exact lost_world_state |].
  split; [reflexivity |].
  split; [exact Hname |]. split; [reflexivity |].
  destruct (highscore_form_loses_score_on_write_failure "2024-01-02 09:30" "Bob"
              full_disk lost_world 3%nat lost_state
              lost_world_session lost_world_state eq_refl Hname eq_refl)
    as (disk' & w' & Hrun & Hstate & _ & Hpart & _).
  exists disk', w'. split; [exact Hrun |]. split; [exact Hstate |].
  exact (Hpart eq_refl).
Defined.

Lemma blank_name_is_saved_as_empty_witness :
  session lost_world = Some 3%nat
  /\ heap lost_world !! 3%nat = Some lost_state
  /\ show_highscore_form lost_state = true
  /\ "   " <> ""
  /\ all_space "   " = true
  /\ exists w',
       save_highscore_form "2024-01-02 09:30" "   " fresh_disk lost_world
         = Ok (save_highscores HIGHSCORE_FILE
                 (add_highscore "2024-01-02 09:30" "" (score lost_state)
                    (load_highscores HIGHSCORE_FILE fresh_disk))
                 fresh_disk,
               Some (ScoreSaved "   ")) w'.
Proof.
  assert (Hname : "   " <> "") by discriminate.
  split; [exact lost_world_session |]. split; [exact lost_world_state |].
  split; [reflexivity |].
  split; [exact Hname |]. split; [reflexivity |].
  exact (blank_name_is_saved_as_empty "2024-01-02 09:30" "   " fresh_disk
           lost_world 3%nat lost_state lost_world_session lost_world_state
           eq_refl Hname eq_refl).
Defined.

(** ** The leaderboard file of the running program *)

Lemma app_reachable_world w disk : app_reachable w disk -> reachable w.
Proof.
  induction 1 as [g names how | w w' disk disk' act _ IH Hstep]; [constructor |].
  destruct act as [act | entry_time player_name | how]; cbn [app_perform] in Hstep.
  - unfold bind in Hstep. destruct (perform act w) as [[] w1 |] eqn:Hact; [| discriminate].
    injection Hstep as _ <-. exact (reachable_step w w1 act IH Hact).
  - unfold bind in Hstep.
    destruct (save_highscore_form entry_time player_name disk w) as [r w1 |] eqn:Hform;
      [| discriminate].
    injection Hstep as _ <-.
    destruct (session w) as [l |] eqn:Hs.
    2:{ unfold save_highscore_form, bind, get_session in Hform. now rewrite Hs in Hform. }
    destruct (proj2 (reachable_ok w IH) l Hs) as (d & Hl).
    rewrite (save_highscore_form_run entry_time player_name disk w l d Hs Hl) in Hform.
    destruct (show_highscore_form d); [| injection Hform as _ <-; exact IH].
    destruct (String.eqb player_name ""); [injection Hform as _ <-; exact IH |].
    injection Hform as _ <-.
    apply (reachable_step w _ CloseForm IH). cbn [perform].
    apply (close_highscore_form_run w l d Hs Hl).
  - injection Hstep as _ <-. exact IH.
Qed.

Lemma score_at_round_at_most (r : Z) : 0 <= r <= 21 -> score_at_round r <= 102.
Proof.
  intros Hr. rewrite score_at_round_closed_form by exact Hr.
  destruct (Z.leb_spec r 8); [lia |]. destruct (Z.leb_spec r 15); lia.
Qed.

Lemma load_highscores_ok disk : disk_ok disk -> Forall entry_ok (load_highscores HIGHSCORE_FILE disk).
Proof.
  intros [_ [Hnone | [Hcut | (board & Hfile & _ & _ & Hall)]]]; unfold load_highscores.
  - rewrite Hnone. constructor.
  - rewrite Hcut. constructor.
  - rewrite Hfile. now apply Forall_sort_desc.
Qed.

Lemma add_highscore_ok entry_time name score current_scores :
  1 <= score <= 102 ->
  Forall entry_ok current_scores ->
  board_ok (add_highscore entry_time (strip name) score current_scores).
Proof.
  intros Hscore Hall. split; [| split].
  - unfold add_highscore. apply firstn_le_length.
  - apply add_highscore_ranked.
  - unfold add_highscore.
    apply List.Forall_forall. intros e He.
    apply (In_nth_error) in He as (i & Hi).
    assert (Hin : In e (sort_desc (current_scores ++ [mkEntry (strip name) (Some score) entry_time]))).
    { rewrite <- (firstn_skipn MAX_HIGHSCORES (sort_desc _)). apply in_or_app. left.
      eapply nth_error_In. exact Hi. }
    apply (Permutation_in _ (sort_desc_perm _)) in Hin.
    apply in_app_or in Hin as [Hold | [<- | []]].
    + rewrite List.Forall_forall in Hall. now apply Hall.
    + exists score. cbn. split; [reflexivity |]. split; [exact Hscore |].
      apply strip_idempotent.
Qed.

(** Writing the leaderboard keeps every other file away. *)
Lemma write_file_ok text disk :
  disk_ok disk ->
  (text = NotJson \/ exists board, text = JsonEntries board /\ board_ok board) ->
  disk_ok (write_file HIGHSCORE_FILE text disk).
Proof.
  intros [Hothers _] Htext. split.
  - intros file Hfile. unfold write_file in *. cbn [files file_of] in *.
    rewrite lookup_insert_ne by congruence. now apply Hothers.
  - rewrite content_write_file.
    destruct Htext as [-> | (board & -> & Hboard)]; [right; now left |].
    right. right. now exists board.
Qed.

Lemma app_reachable_disk_ok w disk : app_reachable w disk -> disk_ok disk.
Proof.
  induction 1 as [g names how | w w' disk disk' act Hreach IH Hstep].
  - split; [intros file _; apply lookup_empty | left; apply lookup_empty].
  - pose proof (app_reachable_world w disk Hreach) as Hworld.
    destruct act as [act | entry_time player_name | how]; cbn [app_perform] in Hstep.
    + unfold bind in Hstep. destruct (perform act w) as [[] w1 |]; [| discriminate].
      injection Hstep as <- _. exact IH.
    + unfold bind in Hstep.
      destruct (save_highscore_form entry_time player_name disk w) as [r w1 |] eqn:Hform;
        [| discriminate].
      injection Hstep as <- _.
      destruct (session w) as [l |] eqn:Hs.
      2:{ unfold save_highscore_form, bind, get_session in Hform. now rewrite Hs in Hform. }
      destruct (proj2 (reachable_ok w Hworld) l Hs) as (d & Hl).
      rewrite (save_highscore_form_run entry_time player_name disk w l d Hs Hl) in Hform.
      destruct (show_highscore_form d) eqn:Hshown; [| injection Hform as <- _; exact IH].
      destruct (String.eqb player_name ""); [injection Hform as <- _; exact IH |].
      injection Hform as <- _. cbn [fst].
      assert (Hscore : 1 <= score d <= 102).
      { destruct (reachable_well_shaped w l d Hworld Hl) as [-> | [Hp | Hg]].
        - discriminate Hshown.
        - destruct Hp as (_ & _ & _ & _ & _ & _ & Hclosed). congruence.
        - destruct Hg as (_ & Hround & Hsc & _ & _ & _ & Hpos).
          specialize (Hpos Hshown). rewrite Hsc in *.
          pose proof (score_at_round_at_most (current_round d) ltac:(lia)). lia. }
      unfold save_highscores. destruct (writing disk); [| exact IH |].
      * apply (write_file_ok _ disk IH). right. eexists. split; [reflexivity |].
        apply add_highscore_ok; [exact Hscore | now apply load_highscores_ok].
      * apply (write_file_ok _ disk IH). now left.
    + injection Hstep as <- _. exact IH.
Qed.

(** X18: the program, started without a leaderboard file, never writes any
    file but the one [highscores.json] names.  Whatever that file holds, a
    list of entries or what a write that broke off left of one, the
    leaderboard loaded from it is the list stored, if one is stored, and has
    at most ten entries, in descending order of score, each with a score
    between 1 and 102 and a name without white space at its ends. *)
Theorem loaded_leaderboard_stays_well_formed (w : World) (disk : Disk) :
  app_reachable w disk ->
  (forall file, file <> file_of disk HIGHSCORE_FILE -> files disk !! file = None)
  /\ (forall board,
        content disk HIGHSCORE_FILE = Some (JsonEntries board) ->
        load_highscores HIGHSCORE_FILE disk = board)
  /\ (length (load_highscores HIGHSCORE_FILE disk) <= 10)%nat
  /\ StronglySorted ranks_before (load_highscores HIGHSCORE_FILE disk)
  /\ Forall (fun e => exists s, entry_score e = Some s /\ 1 <= s <= 102
                                /\ strip (entry_name e) = entry_name e)
            (load_highscores HIGHSCORE_FILE disk).
Proof.
  intros Hreach. pose proof (app_reachable_disk_ok w disk Hreach) as Hok.
  split; [exact (proj1 Hok) |].
  pose proof (load_highscores_ok disk Hok) as Hall.
  destruct Hok as [_ [Hnone | [Hcut | (board & Hfile & Hlen & Hsorted & _)]]].
  - split; [congruence |].
    unfold load_highscores in *. rewrite Hnone in *.
    split; [cbn; lia |]. split; [constructor | exact Hall].
  - split; [congruence |].
    unfold load_highscores in *. rewrite Hcut in *.
    split; [cbn; lia |]. split; [constructor | exact Hall].
  - assert (Hload : load_highscores HIGHSCORE_FILE disk = board).
    { unfold load_highscores. rewrite Hfile. now apply sort_desc_ranked. }
    split; [congruence |].
    rewrite Hload in *. split; [exact Hlen |]. split; [exact Hsorted | exact Hall].
Qed.

Lemma app_reachable_actions (acts : list action) :
  forall w w' disk,
    app_reachable w disk -> perform_all acts w = Ok tt w' -> app_reachable w' disk.
Proof.
  induction acts as [| act rest IH]; intros w w' disk Hreach Hrun.
  - injection Hrun as <-. exact Hreach.
  - cbn [perform_all] in Hrun. unfold bind in Hrun.
    destruct (perform act w) as [[] w1 |] eqn:Hact; [| discriminate].
    apply (IH w1 w' disk); [| exact Hrun].
    apply (app_reachable_step w w1 disk disk (Act act) Hreach).
    cbn [app_perform]. now rewrite (bind_run _ _ _ _ _ Hact).
Qed.

Lemma saved_app_reachable : app_reachable (fst saved_app) (snd saved_app).
Proof.
  assert (Hlost : app_reachable lost_world fresh_disk).
  { unfold lost_world, world_after.
    destruct (perform_all _ (initial_world sample_rng)) as [[] w |] eqn:Hrun;
      [| constructor].
    apply (app_reachable_actions _ _ _ _
             (app_reachable_initial sample_rng sample_names WritesAll) Hrun). }
  unfold saved_app.
  destruct (app_perform _ fresh_disk lost_world) as [disk w |] eqn:Hsave;
    [| exact Hlost].
  exact (app_reachable_step _ _ _ _ _ Hlost Hsave).
Qed.

Lemma loaded_leaderboard_stays_well_formed_witness :
  app_reachable (fst saved_app) (snd saved_app)
  /\ load_highscores HIGHSCORE_FILE (snd saved_app)
     = [mkEntry "Bob" (Some 1) "2024-01-02 09:30"]
  /\ (length (load_highscores HIGHSCORE_FILE (snd saved_app)) <= 10)%nat
  /\ StronglySorted ranks_before (load_highscores HIGHSCORE_FILE (snd saved_app)).
Proof.
  split; [exact saved_app_reachable |].
  split; [vm_compute; reflexivity |].
  destruct (loaded_leaderboard_stays_well_formed (fst saved_app) (snd saved_app)
              saved_app_reachable) as (_ & _ & Hlen & Hsorted & _).
  split; [exact Hlen | exact Hsorted].
Defined.

(** ** The length of a session *)

Lemma submits_advance (answers : list Z) :
  forall (w : World) (k : Z),
    reachable w -> session w <> None ->
    (forall d, session_state w = Some d -> status d = "playing" ->
               k + 1 <= current_round d) ->
    exists w' d',
      perform_all (map Submit answers) w = Ok tt w'
      /\ reachable w'
      /\ session_state w' = Some d'
      /\ (status d' = "playing" -> k + Z.of_nat (length answers) + 1 <= current_round d').
Proof.
  induction answers as [| user_answer rest IH]; intros w k Hreach Hs Hround.
  - destruct (session w) as [l |] eqn:Hl; [| contradiction].
    destruct (proj2 (reachable_ok w Hreach) l Hl) as (d & Hd).
    assert (Hstate : session_state w = Some d) by (unfold session_state; now rewrite Hl).
    exists w, d. split; [reflexivity |]. split; [exact Hreach |]. split; [exact Hstate |].
    intros Hst. cbn [length Z.of_nat]. specialize (Hround d Hstate Hst). lia.
  - destruct (session w) as [l |] eqn:Hl; [| contradiction].
    destruct (proj2 (reachable_ok w Hreach) l Hl) as (d & Hd).
    assert (Hstate : session_state w = Some d) by (unfold session_state; now rewrite Hl).
    destruct (submit_answer_run user_answer w l d Hl Hd) as (d1 & g1 & Hrun & Hans).
    assert (Hadvance : status d1 = "playing" -> k + 1 + 1 <= current_round d1).
    { intros Hplaying.
      destruct Hans as [Hq | q Hq Hne | q Hq Heq Hlast | q q' Hq Heq Hmore Ha Hops];
        cbn [status current_round] in *.
      - exfalso. destruct (reachable_well_shaped w l d Hreach Hd) as [Hw | [Hp | Hg]].
        + unfold shape_welcome in Hw. rewrite Hw in Hplaying. discriminate Hplaying.
        + destruct Hp as (_ & _ & _ & (q & Hq' & _) & _). congruence.
        + destruct Hg as (Hover & _). congruence.
      - discriminate Hplaying.
      - discriminate Hplaying.
      - specialize (Hround d Hstate Hplaying). lia. }
    set (w1 := mkWorld (heap w ++ [d1]) g1 (Some (length (heap w)))) in *.
    assert (Hreach1 : reachable w1) by exact (reachable_step w w1 (Submit user_answer) Hreach Hrun).
    destruct (IH w1 (k + 1) Hreach1) as (w' & d' & Hrest & Hreach' & Hstate' & Hround').
    + discriminate.
    + intros d0 Hd0 Hplaying.
      unfold session_state, w1 in Hd0. cbn [session heap] in Hd0.
      rewrite lookup_last in Hd0. injection Hd0 as ->. exact (Hadvance Hplaying).
    + exists w', d'.
      split.
      { change (map Submit (user_answer :: rest)) with (Submit user_answer :: map Submit rest).
        cbn [perform_all perform]. now rewrite (bind_run _ _ _ _ _ Hrun). }
      split; [exact Hreach' |]. split; [exact Hstate' |].
      intros Hst. specialize (Hround' Hst). cbn [length]. lia.
Qed.

(** X19: a session never takes more than twenty answers: from a reachable
    world with a session, whatever twenty values are submitted, all twenty
    submissions return and the state the session then holds is not playing
    any more. *)
Theorem session_ends_within_twenty_answers (w : World) (answers : list Z) :
  reachable w ->
  session w <> None ->
  length answers = 20%nat ->
  exists w' d',
    perform_all (map Submit answers) w = Ok tt w'
    /\ session_state w' = Some d'
    /\ status d' <> "playing".
Proof.
  intros Hreach Hs Hlen.
  destruct (submits_advance answers w 0 Hreach Hs) as (w' & d' & Hrun & Hreach' & Hstate & Hround).
  - intros d Hd Hplaying.
    unfold session_state in Hd. destruct (session w) as [l |]; [| discriminate].
    destruct (reachable_well_shaped w l d Hreach Hd) as [-> | [Hp | Hg]].
    + discriminate Hplaying.
    + destruct Hp as (_ & Hr & _). lia.
    + destruct Hg as (Hover & _). congruence.
  - exists w', d'. split; [exact Hrun |]. split; [exact Hstate |].
    intros Hplaying. specialize (Hround Hplaying). rewrite Hlen in Hround.
    unfold session_state in Hstate. destruct (session w') as [l' |]; [| discriminate].
    destruct (reachable_well_shaped w' l' d' Hreach' Hstate) as [-> | [Hp | Hg]].
    + discriminate Hplaying.
    + destruct Hp as (_ & Hr & _). lia.
    + destruct Hg as (Hover & _). congruence.
Qed.

Lemma session_ends_within_twenty_answers_witness :
  reachable playing_world
  /\ session playing_world <> None
  /\ length (repeat 40 20) = 20%nat
  /\ exists w' d',
       perform_all (map Submit (repeat 40 20)) playing_world = Ok tt w'
       /\ session_state w' = Some d'
       /\ status d' <> "playing".
Proof.
  assert (Hs : session playing_world <> None)
    by (rewrite playing_world_session; discriminate).
  split; [exact playing_world_reachable |]. split; [exact Hs |].
  split; [reflexivity |].
  exact (session_ends_within_twenty_answers playing_world (repeat 40 20)
           playing_world_reachable Hs eq_refl).
Defined.
